(** * TypesOfYouTubeVideoTitles: a shallow embedding of the page logic

    The repository is a small Next.js application: a host router
    ([middleware]), three variants of the taxonomy page ([TopicsPage]),
    a link preview component ([VideoPreview]) and an inline emphasis
    formatter ([formatEmphasis]).  This development embeds the data-dependent
    logic of these functions (markup, class names and React keys are left
    out) and states the properties of the specification about them.

    JavaScript strings are modelled as [string], a sequence of bytes
    (UTF-8 for the characters outside ASCII).  Apart from the white space
    that [Number] skips, the only characters the code inspects are ASCII
    ([*], [:], [.], [/], [-], digits and the letters of a number). *)

From Stdlib Require Import String Ascii ZArith List Lia Bool.
From Stdlib Require Import Sorting.Sorted Sorting.Permutation.
From Stdlib Require Import Numbers.DecimalString Numbers.DecimalNat.
From stdpp Require Import gmap strings.

Import ListNotations.
Local Open Scope string_scope.
Local Open Scope list_scope.

(** ** JavaScript string primitives *)

Definition startsWith (s p : string) : bool := String.prefix p s.

Fixpoint lastChar (s : string) : option ascii :=
  match s with
  | EmptyString => None
  | String c EmptyString => Some c
  | String _ r => lastChar r
  end.

(** [s.endsWith(c)] for a one character needle. *)
Definition endsWithChar (s : string) (c : ascii) : bool :=
  match lastChar s with
  | Some d => Ascii.eqb d c
  | None => false
  end.

(** [s.slice(1, -1)]: from index 1 up to (not including) the last
    character; empty when the string has fewer than two characters. *)
Definition slice_1_m1 (s : string) : string :=
  String.substring 1 (String.length s - 2) s.

(** ** Emphasis formatter (second page of src/unnamed/part_000) *)

Module Emphasis.

Definition star : ascii := "*"%char.

Definition isStar (c : ascii) : bool := Ascii.eqb c star.

(** The greedy run of non-star characters of the pattern: the longest
    star-free prefix and what follows it. *)
Fixpoint spanNonStar (s : string) : string * string :=
  match s with
  | EmptyString => (EmptyString, EmptyString)
  | String c r =>
      if isStar c then (EmptyString, s)
      else let '(a, b) := spanNonStar r in (String c a, b)
  end.

(** An anchored match of the pattern "star, one or more non-star
    characters, star" at the start of [s]; the result is
    the matched text and the rest of the string.  After the greedy run the
    next character is a star or the end of the string; giving characters
    back leaves a non-star character in front of the closing star, so
    backtracking never finds another match. *)
Definition matchAt (s : string) : option (string * string) :=
  match s with
  | String c r =>
      if isStar c then
        match spanNonStar r with
        | (String i inner, String e rest) =>
            Some (String c (String i inner +:+ String e EmptyString), rest)
        | _ => None
        end
      else None
  | EmptyString => None
  end.

(** [String.prototype.split] with that pattern inside one capture group
    (the call of [formatEmphasis], flag g): [cur] is the
    text between the end of the last match and the scanning position, [s]
    the text from the scanning position on.  A failed match advances the
    scanning position by one; a match pushes [cur] and the captured group
    and restarts after it.  Every step consumes a character, so
    [String.length s] steps are enough. *)
Fixpoint splitLoop (fuel : nat) (cur s : string) : list string :=
  match s with
  | EmptyString => [cur]
  | String c r =>
      match fuel with
      | O => [cur +:+ s]
      | S fuel' =>
          match matchAt s with
          | Some (m, rest) => cur :: m :: splitLoop fuel' EmptyString rest
          | None => splitLoop fuel' (cur +:+ String c EmptyString) r
          end
      end
  end.

Definition split (text : string) : list string :=
  splitLoop (String.length text) EmptyString text.

(** The nodes of the result: [<em>inner</em>] or a fragment of plain text. *)
Inductive Segment : Type :=
  | Emphasized (inner : string)
  | Plain (part : string).

Definition classify (part : string) : Segment :=
  if startsWith part "*" && endsWithChar part star
     && (2 <=? String.length part)%nat
  then Emphasized (slice_1_m1 part)
  else Plain part.

Definition formatEmphasis (text : string) : list Segment :=
  map classify (split text).

(** Writing a segment back as source text. *)
Definition unparse (seg : Segment) : string :=
  match seg with
  | Emphasized inner => "*" +:+ inner +:+ "*"
  | Plain part => part
  end.

Fixpoint concatAll (l : list string) : string :=
  match l with
  | [] => EmptyString
  | x :: r => x +:+ concatAll r
  end.

Fixpoint starFree (s : string) : bool :=
  match s with
  | EmptyString => true
  | String c r => negb (isStar c) && starFree r
  end.

End Emphasis.

(** ** The taxonomy document (database.json) *)

Record Subtype : Type := {
  subtype_type : string;
  examples : option (list string)   (* [None]: the field is missing *)
}.

Record Topic : Type := {
  topic_type : string;
  subtypes : option (list Subtype)  (* [None]: the field is missing *)
}.

(** [Object.entries(topicsData)]: the key and value pairs of the document in
    the enumeration order of the object. *)
Definition Database : Type := list (string * Topic).

(** ** Numbers

    The page only orders numbers, so a number is kept as far as its order
    needs it: not-a-number, the two infinities, and the finite
    double-precision values.  Every finite double is a whole multiple of
    2^-1074; [Finite u] stands for u * 2^-1074 (both zeros are
    [Finite 0]). *)
Inductive JSNumber : Type :=
  | NaN
  | NegInfinity
  | Finite (units : Z)
  | PosInfinity.

(** The double nearest to the positive ratio [num / den], ties to the even
    significand, infinity from 2^1024 - 2^970 on.  [L] is the binary
    exponent of the ratio, [k] the exponent of the last place of the
    result (at least -1074, where the subnormal numbers lie), [r] the
    rounded significand. *)
Definition roundRatio (num den : Z) : JSNumber :=
  let l0 := (Z.log2 num - Z.log2 den)%Z in
  let atLeast := if (0 <=? l0)%Z then (den * 2 ^ l0 <=? num)%Z
                 else (den <=? num * 2 ^ (- l0))%Z in
  let L := if atLeast then l0 else (l0 - 1)%Z in
  let k := Z.max (L - 52) (-1074) in
  let n' := if (0 <=? k)%Z then num else (num * 2 ^ (- k))%Z in
  let d' := if (0 <=? k)%Z then (den * 2 ^ k)%Z else den in
  let q := (n' / d')%Z in
  let rest := (n' mod d')%Z in
  let r := if (2 * rest <? d')%Z then q
           else if (d' <? 2 * rest)%Z then (q + 1)%Z
           else if Z.even q then q else (q + 1)%Z in
  if (971 <? k)%Z then PosInfinity
  else if (k =? 971)%Z && (2 ^ 53 <=? r)%Z then PosInfinity
  else Finite (r * 2 ^ (k + 1074)).

(** The value of a digit in a base up to 16, either case. *)
Definition digitIn (base : Z) (c : ascii) : option Z :=
  let n := Z.of_nat (nat_of_ascii c) in
  let v := if (48 <=? n)%Z && (n <=? 57)%Z then Some (n - 48)%Z
           else if (97 <=? n)%Z && (n <=? 102)%Z then Some (n - 87)%Z
           else if (65 <=? n)%Z && (n <=? 70)%Z then Some (n - 55)%Z
           else None in
  match v with
  | Some d => if (d <? base)%Z then Some d else None
  | None => None
  end.

Fixpoint digitsFrom (base acc : Z) (s : string) : option Z :=
  match s with
  | EmptyString => Some acc
  | String c r =>
      match digitIn base c with
      | Some d => digitsFrom base (base * acc + d) r
      | None => None
      end
  end.

(** One or more digits of the base. *)
Definition digitsIn (base : Z) (s : string) : option Z :=
  match s with
  | EmptyString => None
  | _ => digitsFrom base 0 s
  end.

(** The leading decimal digits and what follows them. *)
Fixpoint spanDigits (s : string) : string * string :=
  match s with
  | EmptyString => (EmptyString, EmptyString)
  | String c r =>
      match digitIn 10 c with
      | Some _ => let '(a, b) := spanDigits r in (String c a, b)
      | None => (EmptyString, s)
      end
  end.

Definition bytes (l : list nat) : string :=
  fold_right (fun n s => String (ascii_of_nat n) s) EmptyString l.

(** White space and line terminators, in UTF-8: tab, line feed, vertical
    tab, form feed, carriage return, space, U+00A0, U+1680, U+2000 to
    U+200A, U+2028, U+2029, U+202F, U+205F, U+3000 and U+FEFF. *)
Definition whiteSpaces : list string :=
  map bytes
    [ [9]; [10]; [11]; [12]; [13]; [32];
      [194; 160]; [225; 154; 128];
      [226; 128; 128]; [226; 128; 129]; [226; 128; 130]; [226; 128; 131];
      [226; 128; 132]; [226; 128; 133]; [226; 128; 134]; [226; 128; 135];
      [226; 128; 136]; [226; 128; 137]; [226; 128; 138];
      [226; 128; 168]; [226; 128; 169]; [226; 128; 175];
      [226; 129; 159]; [227; 128; 128]; [239; 187; 191] ]%nat.

Fixpoint dropBytes (n : nat) (s : string) : string :=
  match n, s with
  | S n', String _ r => dropBytes n' r
  | _, _ => s
  end.

(** The length of the white space character at the start of [s], 0 when
    there is none. *)
Definition whiteLength (s : string) : nat :=
  match List.find (startsWith s) whiteSpaces with
  | Some w => String.length w
  | None => 0
  end.

Fixpoint stripLeftLoop (fuel : nat) (s : string) : string :=
  match fuel with
  | O => s
  | S fuel' =>
      match whiteLength s with
      | O => s
      | n => stripLeftLoop fuel' (dropBytes n s)
      end
  end.

Definition stripLeft (s : string) : string := stripLeftLoop (String.length s) s.

Definition allWhite (s : string) : bool := String.eqb (stripLeft s) "".

Fixpoint stripRight (s : string) : string :=
  match s with
  | EmptyString => EmptyString
  | String c r => if allWhite s then EmptyString else String c (stripRight r)
  end.

Definition trim (s : string) : string := stripRight (stripLeft s).

Definition fromInteger (n : Z) : JSNumber :=
  if (n =? 0)%Z then Finite 0 else roundRatio n 1.

(** The number for [mantissa * 10 ^ exponent]. *)
Definition fromDecimal (mantissa exponent : Z) : JSNumber :=
  if (mantissa =? 0)%Z then Finite 0
  else if (0 <=? exponent)%Z then roundRatio (mantissa * 10 ^ exponent) 1
  else roundRatio mantissa (10 ^ (- exponent)).

Definition negate (x : JSNumber) : JSNumber :=
  match x with
  | NaN => NaN
  | NegInfinity => PosInfinity
  | Finite u => Finite (- u)
  | PosInfinity => NegInfinity
  end.

(** Hexadecimal, octal and binary literals; [None] when the text does not
    start like one. *)
Definition nonDecimalLiteral (t : string) : option JSNumber :=
  match t with
  | String z (String c r) =>
      let base := if Ascii.eqb c "x" || Ascii.eqb c "X" then Some 16%Z
                  else if Ascii.eqb c "o" || Ascii.eqb c "O" then Some 8%Z
                  else if Ascii.eqb c "b" || Ascii.eqb c "B" then Some 2%Z
                  else None in
      match base with
      | Some b =>
          if Ascii.eqb z "0" then
            Some match digitsIn b r with
                 | Some n => fromInteger n
                 | None => NaN
                 end
          else None
      | None => None
      end
  | _ => None
  end.

(** The exponent of a decimal literal: nothing, or [e] or [E], an optional
    sign and digits, up to the end of the text. *)
Definition exponentPart (s : string) : option Z :=
  match s with
  | EmptyString => Some 0%Z
  | String c r =>
      if Ascii.eqb c "e" || Ascii.eqb c "E" then
        match r with
        | String "+" d => digitsIn 10 d
        | String "-" d => option_map Z.opp (digitsIn 10 d)
        | _ => digitsIn 10 r
        end
      else None
  end.

Definition unsignedDecimal (u : string) : JSNumber :=
  if String.eqb u "Infinity" then PosInfinity
  else
    let '(intPart, r1) := spanDigits u in
    let '(fracPart, r2) :=
      match r1 with
      | String "." r => spanDigits r
      | _ => (EmptyString, r1)
      end in
    if String.eqb intPart "" && String.eqb fracPart "" then NaN
    else
      match exponentPart r2, digitsFrom 10 0 (intPart +:+ fracPart) with
      | Some e, Some m => fromDecimal m (e - Z.of_nat (String.length fracPart))
      | _, _ => NaN
      end.

Definition decimalLiteral (t : string) : JSNumber :=
  match t with
  | String c u =>
      if Ascii.eqb c "+" then unsignedDecimal u
      else if Ascii.eqb c "-" then negate (unsignedDecimal u)
      else unsignedDecimal t
  | EmptyString => unsignedDecimal t
  end.

(** [Number(key)]: the conversion of a string to a number.  The text
    without surrounding white space is empty (zero), a hexadecimal, octal or
    binary literal, or a signed decimal literal or [Infinity]; anything else
    is not a number.  The value is rounded to the nearest double.  (For
    literals of more than 20 significant digits the language lets an engine
    round from the first 20 digits; the model rounds the exact value, as
    the engines in use do.) *)
Definition Number (s : string) : JSNumber :=
  let t := trim s in
  match t with
  | EmptyString => Finite 0
  | _ =>
      match nonDecimalLiteral t with
      | Some x => x
      | None => decimalLiteral t
      end
  end.

Definition isNaN (x : JSNumber) : bool :=
  match x with
  | NaN => true
  | _ => false
  end.

(** The order of the numbers that are not [NaN]. *)
Definition numLeb (x y : JSNumber) : bool :=
  match x, y with
  | NaN, _ | _, NaN => false
  | NegInfinity, _ => true
  | _, PosInfinity => true
  | Finite u, Finite v => (u <=? v)%Z
  | _, _ => false
  end.

Definition numEqb (x y : JSNumber) : bool := numLeb x y && numLeb y x.

(** The sign of [x - y] as [sort] reads it.  The difference of two doubles
    is rounded, which never changes its sign; a difference that is not a
    number (an operand is [NaN], or both are the same infinity) counts as
    0. *)
Definition subSign (x y : JSNumber) : Z :=
  match x, y with
  | NaN, _ | _, NaN => 0
  | PosInfinity, PosInfinity | NegInfinity, NegInfinity => 0
  | PosInfinity, _ | _, NegInfinity => 1
  | _, PosInfinity | NegInfinity, _ => -1
  | Finite u, Finite v => Z.sgn (u - v)
  end.

(** The comparator [([a], [b]) => Number(a) - Number(b)], by its sign. *)
Definition compareKeys (a b : string * Topic) : Z :=
  subSign (Number (fst a)) (Number (fst b)).

(** *** Keys that are plain decimal numbers

    The exact value of a text of decimal digits (0 for the empty text),
    whatever its size. *)
Definition decimalValue (k : string) : option Z := digitsFrom 10 0 k.

(** Integers up to [2^53] are exact as JavaScript numbers. *)
Definition maxSafe : Z := 2 ^ 53.

Definition isNumericKey (k : string) : bool :=
  match decimalValue k with
  | Some n => (n <=? maxSafe)%Z
  | None => false
  end.

Definition keyValue (e : string * Topic) : Z :=
  match decimalValue (fst e) with
  | Some n => n
  | None => 0
  end.

(** The order of the keys as numbers, and the entries whose key reads as a
    given number. *)
Definition keyLeb (a b : string * Topic) : bool :=
  numLeb (Number (fst a)) (Number (fst b)).

Definition keyIs (x : JSNumber) (e : string * Topic) : bool :=
  numEqb (Number (fst e)) x.

(** [Array.prototype.sort] is stable; with a consistent comparator every
    stable sorting algorithm returns the same array.  The model inserts each
    element in front of the first later element it does not exceed.  (When
    some keys are not numbers and others differ, the comparator is not
    consistent and the language leaves the order to the engine.) *)
Fixpoint insertBy {A : Type} (cmp : A -> A -> Z) (x : A) (l : list A) : list A :=
  match l with
  | [] => [x]
  | y :: r => if (cmp x y <=? 0)%Z then x :: y :: r else y :: insertBy cmp x r
  end.

Definition sortBy {A : Type} (cmp : A -> A -> Z) (l : list A) : list A :=
  fold_right (insertBy cmp) [] l.

Definition sortedEntries (db : Database) : Database := sortBy compareKeys db.

(** The memoised [topics] array of [TopicsPage] (the same in all pages). *)
Definition sortedTopics (db : Database) : list Topic :=
  map snd (sortedEntries db).

(** ** Expansion state and the toggles (the same in all pages) *)

Record ExpansionState : Type := {
  expandedTopics : gmap nat bool;
  expandedSubtypes : gmap string bool
}.

(** [!!m[k]]: a missing entry reads as [undefined], which is falsy. *)
Definition truthy (v : option bool) : bool := default false v.

(** A non-negative integer index in a template literal. *)
Definition toString (n : nat) : string :=
  NilEmpty.string_of_uint (Nat.to_uint n).

Definition subtypeKey (topicIdx subtypeIdx : nat) : string :=
  toString topicIdx +:+ "-" +:+ toString subtypeIdx.

Definition toggleTopic (idx : nat) (st : ExpansionState) : ExpansionState :=
  {| expandedTopics :=
       <[idx := negb (truthy (expandedTopics st !! idx))]> (expandedTopics st);
     expandedSubtypes := expandedSubtypes st |}.

Definition toggleSubtype (topicIdx subtypeIdx : nat) (st : ExpansionState)
  : ExpansionState :=
  let key := subtypeKey topicIdx subtypeIdx in
  {| expandedTopics := expandedTopics st;
     expandedSubtypes :=
       <[key := negb (truthy (expandedSubtypes st !! key))]> (expandedSubtypes st) |}.

Definition isOpen (st : ExpansionState) (tIdx : nat) : bool :=
  truthy (expandedTopics st !! tIdx).

Definition subOpen (st : ExpansionState) (tIdx sIdx : nat) : bool :=
  truthy (expandedSubtypes st !! subtypeKey tIdx sIdx).

(** ** The rendered tree *)

Inductive JsError : Type := TypeError.

Inductive Result (A : Type) : Type :=
  | Ok (a : A)
  | Throw (e : JsError).
Arguments Ok {A} a.
Arguments Throw {A} e.

Definition bindR {A B : Type} (r : Result A) (f : A -> Result B) : Result B :=
  match r with
  | Ok a => f a
  | Throw e => Throw e
  end.

Fixpoint sequenceR {A : Type} (l : list (Result A)) : Result (list A) :=
  match l with
  | [] => Ok []
  | r :: rest => bindR r (fun a => bindR (sequenceR rest) (fun t => Ok (a :: t)))
  end.

Inductive Label : Type :=
  | Text (s : string)
  | Formatted (segments : list Emphasis.Segment).

Inductive ExampleView : Type :=
  | Link (url : string)
  | Preview (url : string).

Inductive ExamplesView : Type :=
  | NoExamples
  | ExampleItems (items : list ExampleView).

Record SubtypeView : Type := {
  sv_label : Label;
  sv_open : bool;
  sv_body : option ExamplesView
}.

Inductive SubtypesView : Type :=
  | NoSubtypes
  | SubtypeItems (items : list SubtypeView).

Record TopicView : Type := {
  tv_label : Label;
  tv_open : bool;
  tv_body : option SubtypesView
}.

(** A subtype row; the three pages differ only in how the label and an
    example are shown.  [sub.examples && sub.examples.length > 0] guards the
    list in all of them. *)
Definition renderSubtype (label : string -> Label) (item : string -> ExampleView)
  (st : ExpansionState) (tIdx sIdx : nat) (sub : Subtype) : SubtypeView :=
  let open := subOpen st tIdx sIdx in
  {| sv_label := label (subtype_type sub);
     sv_open := open;
     sv_body :=
       if open then
         Some match examples sub with
              | Some (u :: us) => ExampleItems (map item (u :: us))
              | Some [] | None => NoExamples
              end
       else None |}.

Definition renderSubtypes (label : string -> Label) (item : string -> ExampleView)
  (st : ExpansionState) (tIdx : nat) (subs : list Subtype) : SubtypesView :=
  match subs with
  | [] => NoSubtypes
  | _ => SubtypeItems (imap (renderSubtype label item st tIdx) subs)
  end.

Inductive Action : Type :=
  | ToggleTopic (idx : nat)
  | ToggleSubtype (topicIdx subtypeIdx : nat).

Definition act (st : ExpansionState) (a : Action) : ExpansionState :=
  match a with
  | ToggleTopic idx => toggleTopic idx st
  | ToggleSubtype t s => toggleSubtype t s st
  end.

(** A mounted page: the memoised topics (dependency list [[]], computed on
    the first render only) and the two state hooks. *)
Record Page : Type := {
  topics : list Topic;
  expansion : ExpansionState
}.

Definition click (p : Page) (a : Action) : Page :=
  {| topics := topics p; expansion := act (expansion p) a |}.

(** *** src/app/topics/page.tsx: everything collapsed, plain links *)

Module TopicsPage.

Definition initial (ts : list Topic) : ExpansionState :=
  {| expandedTopics := ∅; expandedSubtypes := ∅ |}.

Definition mount (db : Database) : Page :=
  let ts := sortedTopics db in {| topics := ts; expansion := initial ts |}.

(** [topic.subtypes.length] and [topic.subtypes.map] read a property of
    [topic.subtypes]; that throws when the field is missing. *)
Definition subtypesOf (topic : Topic) : Result (list Subtype) :=
  match subtypes topic with
  | Some subs => Ok subs
  | None => Throw TypeError
  end.

Definition renderTopic (st : ExpansionState) (tIdx : nat) (topic : Topic)
  : Result TopicView :=
  let open := isOpen st tIdx in
  if open then
    bindR (subtypesOf topic) (fun subs =>
      Ok {| tv_label := Text (topic_type topic);
            tv_open := open;
            tv_body := Some (renderSubtypes Text Link st tIdx subs) |})
  else
    Ok {| tv_label := Text (topic_type topic); tv_open := open; tv_body := None |}.

Definition render (p : Page) : Result (list TopicView) :=
  sequenceR (imap (renderTopic (expansion p)) (topics p)).

End TopicsPage.

(** *** First page of src/unnamed/part_000: everything expanded, previews *)

Module PreviewPage.

Definition defaultExpandedTopics (ts : list Topic) : gmap nat bool :=
  fold_left (fun m idx => <[idx := true]> m) (seq 0 (length ts)) ∅.

Definition defaultExpandedSubtypes (ts : list Topic) : gmap string bool :=
  fold_left
    (fun m '(tIdx, topic) =>
       let subs := default [] (subtypes topic) in
       fold_left (fun m sIdx => <[subtypeKey tIdx sIdx := true]> m)
                 (seq 0 (length subs)) m)
    (imap (fun tIdx topic => (tIdx, topic)) ts) ∅.

Definition initial (ts : list Topic) : ExpansionState :=
  {| expandedTopics := defaultExpandedTopics ts;
     expandedSubtypes := defaultExpandedSubtypes ts |}.

Definition mount (db : Database) : Page :=
  let ts := sortedTopics db in {| topics := ts; expansion := initial ts |}.

Definition renderTopic (st : ExpansionState) (tIdx : nat) (topic : Topic)
  : Result TopicView :=
  let open := isOpen st tIdx in
  let subs := default [] (subtypes topic) in
  Ok {| tv_label := Text (topic_type topic);
        tv_open := open;
        tv_body :=
          if open then Some (renderSubtypes Text Preview st tIdx subs) else None |}.

Definition render (p : Page) : Result (list TopicView) :=
  sequenceR (imap (renderTopic (expansion p)) (topics p)).

End PreviewPage.

(** *** Second page of src/unnamed/part_000: first topic open, formatted
    labels, previews *)

Module TitlesPage.

Definition defaultExpandedTopics (ts : list Topic) : gmap nat bool :=
  if (0 <? length ts)%nat then <[0%nat := true]> ∅ else ∅.

Definition defaultExpandedSubtypes (ts : list Topic) : gmap string bool := ∅.

Definition initial (ts : list Topic) : ExpansionState :=
  {| expandedTopics := defaultExpandedTopics ts;
     expandedSubtypes := defaultExpandedSubtypes ts |}.

Definition mount (db : Database) : Page :=
  let ts := sortedTopics db in {| topics := ts; expansion := initial ts |}.

Definition label (s : string) : Label := Formatted (Emphasis.formatEmphasis s).

Definition renderTopic (st : ExpansionState) (tIdx : nat) (topic : Topic)
  : Result TopicView :=
  let open := isOpen st tIdx in
  let subs := default [] (subtypes topic) in
  Ok {| tv_label := label (topic_type topic);
        tv_open := open;
        tv_body :=
          if open then Some (renderSubtypes label Preview st tIdx subs) else None |}.

Definition render (p : Page) : Result (list TopicView) :=
  sequenceR (imap (renderTopic (expansion p)) (topics p)).

End TitlesPage.

(** ** Link preview ([VideoPreview], both pages of src/unnamed/part_000) *)

Module VideoPreview.

(** The parsed body of the metadata service: [null], or a value whose
    [title] and [thumbnail_url] are read as strings (the casts of the
    source) and may be missing. *)
Inductive Json : Type :=
  | JsonNull
  | JsonObject (title thumbnail_url : option string).

Record Response : Type := {
  ok : bool;
  json : option Json      (* [None]: [res.json()] rejects, the body is no JSON *)
}.

Inductive FetchOutcome : Type :=
  | NetworkError
  | Responded (res : Response).

(** One mounted component with one run of its effect: the three state
    hooks and the [cancelled] variable of the effect's closure. *)
Record Instance : Type := {
  title : option string;
  thumb : option string;
  failed : bool;
  cancelled : bool
}.

Definition mounted : Instance :=
  {| title := None; thumb := None; failed := false; cancelled := false |}.

(** The cleanup function returned by the effect. *)
Definition cleanup (i : Instance) : Instance :=
  {| title := title i; thumb := thumb i; failed := failed i; cancelled := true |}.

(** Promises whose handlers run on the instance. *)
Inductive Settled (A : Type) : Type :=
  | Fulfilled (a : A)
  | Rejected.
Arguments Fulfilled {A} a.
Arguments Rejected {A}.

Definition Async (A : Type) : Type := Instance -> Settled A * Instance.

Definition resolve {A : Type} (a : A) : Async A := fun i => (Fulfilled a, i).
Definition reject {A : Type} : Async A := fun i => (Rejected, i).

Definition then_ {A B : Type} (p : Async A) (f : A -> Async B) : Async B :=
  fun i =>
    match p i with
    | (Fulfilled a, i') => f a i'
    | (Rejected, i') => (Rejected, i')
    end.

Definition catch_ {A : Type} (p : Async A) (h : Async A) : Async A :=
  fun i =>
    match p i with
    | (Fulfilled a, i') => (Fulfilled a, i')
    | (Rejected, i') => h i'
    end.

Notation "p '>>then' f" := (then_ p f) (at level 61, left associativity).
Notation "p '>>catch' h" := (catch_ p h) (at level 61, left associativity).

Definition fetch (o : FetchOutcome) : Async Response :=
  match o with
  | NetworkError => reject
  | Responded res => resolve res
  end.

Definition resJson (res : Response) : Async Json :=
  match json res with
  | Some j => resolve j
  | None => reject
  end.

Definition nonEmpty (v : option string) : option string :=
  match v with
  | Some (String c r) => Some (String c r)
  | Some EmptyString | None => None
  end.

(** [(json.title as string) || url] *)
Definition titleOr (v : option string) (url : string) : string :=
  default url (nonEmpty v).

(** [(json.thumbnail_url as string) || null] *)
Definition thumbOrNull (v : option string) : option string := nonEmpty v.

(** The fulfilment handler; reading a property of [null] throws, which
    rejects the promise returned by [then]. *)
Definition onJson (url : string) (j : Json) : Async unit :=
  fun i =>
    if cancelled i then (Fulfilled tt, i)
    else
      match j with
      | JsonNull => (Rejected, i)
      | JsonObject t th =>
          (Fulfilled tt,
           {| title := Some (titleOr t url);
              thumb := thumbOrNull th;
              failed := failed i;
              cancelled := cancelled i |})
      end.

Definition onError : Async unit :=
  fun i =>
    if cancelled i then (Fulfilled tt, i)
    else
      (Fulfilled tt,
       {| title := title i; thumb := thumb i; failed := true;
          cancelled := cancelled i |}).

(** The promise chain of the effect, run when the lookup completes with
    outcome [o]. *)
Definition lookup (url : string) (o : FetchOutcome) : Async unit :=
  fetch o
    >>then (fun res => if ok res then resJson res else reject)
    >>then (onJson url)
    >>catch onError.

Definition complete (url : string) (o : FetchOutcome) (i : Instance) : Instance :=
  snd (lookup url o i).

Inductive View : Type :=
  | PlainLink (url : string)
  | NoPreviewCard (url : string)
  | PreviewCard (image : option string) (caption : string) (hostLine : option string).

(** First page: a plain link when the lookup failed. *)
Definition render (url : string) (i : Instance) : View :=
  if failed i then PlainLink url
  else PreviewCard (nonEmpty (thumb i)) (default url (title i)) None.

(** Second page: a card without preview whose text is the link; the rich
    card also shows [new URL(url).hostname], or the url when that throws. *)
Definition renderCompact (hostnameOf : string -> option string)
  (url : string) (i : Instance) : View :=
  if failed i then NoPreviewCard url
  else PreviewCard (nonEmpty (thumb i)) (default url (title i))
                   (Some (default url (hostnameOf url))).

Definition isFallback (url : string) (v : View) : bool :=
  match v with
  | PlainLink u | NoPreviewCard u => String.eqb u url
  | PreviewCard _ _ _ => false
  end.

(** The [PreviewResult] of the specification, read off the hooks. *)
Inductive PreviewResult : Type :=
  | Pending
  | Resolved (title : string) (thumbnailUrl : option string)
  | Failed.

Definition resultOf (i : Instance) : PreviewResult :=
  if failed i then Failed
  else match title i with
       | Some t => Resolved t (thumb i)
       | None => Pending
       end.

(** The failures of the specification: a network error, a response whose
    status is not a success, or a body that is no JSON. *)
Definition lookupFails (o : FetchOutcome) : bool :=
  match o with
  | NetworkError => true
  | Responded res =>
      negb (ok res) || match json res with None => true | Some _ => false end
  end.

Definition success (t th : option string) : FetchOutcome :=
  Responded {| ok := true; json := Some (JsonObject t th) |}.

(** The result described in the specification for a successful lookup: the
    title field, the url when that field is absent, and the thumbnail field
    when it is present. *)
Definition specResolved (url : string) (t th : option string) : PreviewResult :=
  Resolved (default url t) th.

End VideoPreview.

(** ** Host router *)

Record Request : Type := {
  host : option string;      (* the host header, [None] when it is not sent *)
  pathname : string
}.

Inductive Routing : Type :=
  | Next
  | Rewrite (path : string).

(** [request.headers.get("host") || ""] *)
Definition hostHeader (req : Request) : string := default "" (host req).

(** [s.split(c)[0]]: the text in front of the first [c]. *)
Fixpoint beforeChar (c : ascii) (s : string) : string :=
  match s with
  | EmptyString => EmptyString
  | String d r => if Ascii.eqb d c then EmptyString else String d (beforeChar c r)
  end.

Fixpoint containsChar (c : ascii) (s : string) : bool :=
  match s with
  | EmptyString => false
  | String d r => Ascii.eqb d c || containsChar c r
  end.

(** The subdomain of the specification: the label in front of the first dot
    of the host without its port; a host without a dot has none. *)
Definition leadingLabel (hostValue : string) : option string :=
  let hostname := beforeChar ":" hostValue in
  if containsChar "." hostname then Some (beforeChar "." hostname) else None.

(** *** src/middleware.ts *)

Module TitlesRouter.

Definition middleware (req : Request) : Routing :=
  let hostname := beforeChar ":" (hostHeader req) in
  if startsWith hostname "titles." then
    if startsWith (pathname req) "/_next"
       || String.eqb (pathname req) "/favicon.ico"
       || startsWith (pathname req) "/public/"
    then Next
    else if negb (String.eqb (pathname req) "/titles") then Rewrite "/titles"
    else Next
  else Next.

(** [matcher: "/:path*"]: the middleware runs on every path. *)
Definition matcher (path : string) : bool := true.

Definition route (req : Request) : Routing :=
  if matcher (pathname req) then middleware req else Next.

End TitlesRouter.

(** *** First file of src/unnamed/part_001 *)

Module TopicsRouter.

Definition middleware (req : Request) : Routing :=
  let hostname := beforeChar ":" (hostHeader req) in
  if startsWith hostname "topics." then
    if startsWith (pathname req) "/_next"
       || String.eqb (pathname req) "/favicon.ico"
       || startsWith (pathname req) "/public/"
    then Next
    else if negb (String.eqb (pathname req) "/topics") then Rewrite "/topics"
    else Next
  else Next.

Definition matcher (path : string) : bool := true.

Definition route (req : Request) : Routing :=
  if matcher (pathname req) then middleware req else Next.

End TopicsRouter.

(** *** Second file of src/unnamed/part_001: sub-paths are kept *)

Module SubpathRouter.

Definition middleware (req : Request) : Routing :=
  if startsWith (hostHeader req) "titles." then
    if String.eqb (pathname req) "/" || String.eqb (pathname req) "" then
      Rewrite "/titles"
    else if negb (startsWith (pathname req) "/titles") then
      Rewrite ("/titles" +:+ pathname req)
    else Next
  else Next.

(** The [.] of [favicon.ico] in the matcher is the wildcard of regular
    expressions: any character but a line terminator. *)
Definition faviconIco (s : string) : bool :=
  startsWith s "favicon"
  && match String.substring 7 1 s with
     | String c EmptyString =>
         negb (Ascii.eqb c "010"%char || Ascii.eqb c "013"%char)
     | _ => false
     end
  && startsWith (String.substring 8 (String.length s - 8) s) "ico".

(** The matcher: a slash followed by anything that does not start with
    [_next/static], [_next/image] or [favicon.ico]. *)
Definition matcher (path : string) : bool :=
  match path with
  | String "/"%char rest =>
      negb (startsWith rest "_next/static"
            || startsWith rest "_next/image"
            || faviconIco rest)
  | _ => false
  end.

Definition route (req : Request) : Routing :=
  if matcher (pathname req) then middleware req else Next.

End SubpathRouter.

(** ** The endpoint of the metadata lookup

    [encodeURIComponent] on text held as UTF-8 bytes: every byte is kept
    when it is an unreserved ASCII character (letters, digits and
    [- _ . ! ~ * ' ( )]) and written as a percent sign and two upper-case
    hexadecimal digits otherwise.  (Text that is not well-formed UTF-16, on
    which the function throws, has no counterpart here.) *)

Definition isUnreserved (c : ascii) : bool :=
  let n := nat_of_ascii c in
  ((65 <=? n) && (n <=? 90))%nat || ((97 <=? n) && (n <=? 122))%nat
  || ((48 <=? n) && (n <=? 57))%nat
  || Ascii.eqb c "-" || Ascii.eqb c "_" || Ascii.eqb c "." || Ascii.eqb c "!"
  || Ascii.eqb c "~" || Ascii.eqb c "*" || Ascii.eqb c "'" || Ascii.eqb c "("
  || Ascii.eqb c ")".

Definition hexDigit (n : nat) : ascii :=
  if (n <? 10)%nat then ascii_of_nat (48 + n) else ascii_of_nat (55 + n).

Definition percentEncode (c : ascii) : string :=
  let n := nat_of_ascii c in
  String "%" (String (hexDigit (n / 16)) (String (hexDigit (n mod 16)) "")).

Fixpoint encodeURIComponent (s : string) : string :=
  match s with
  | EmptyString => EmptyString
  | String c r =>
      (if isUnreserved c then String c "" else percentEncode c)
      +:+ encodeURIComponent r
  end.

(** [`https://noembed.com/embed?url=${encodeURIComponent(url)}`] *)
Definition endpoint (url : string) : string :=
  "https://noembed.com/embed?url=" +:+ encodeURIComponent url.

(** The inverse of [hexDigit] on the sixteen digits. *)
Definition hexValue (c : ascii) : nat :=
  let n := nat_of_ascii c in
  if (n <? 58)%nat then n - 48 else n - 55.

(** ** Notions used to state further properties *)

(** The paths the two sub-path dropping routers let through on their host:
    the condition of their inner [if]. *)
Definition isAssetPath (p : string) : bool :=
  startsWith p "/_next" || String.eqb p "/favicon.ico" || startsWith p "/public/".

Fixpoint allStars (s : string) : bool :=
  match s with
  | EmptyString => true
  | String c r => Emphasis.isStar c && allStars r
  end.

(** The example elements of a rendered page, in document order. *)
Definition examplesShown (v : SubtypeView) : list ExampleView :=
  match sv_body v with
  | Some (ExampleItems items) => items
  | Some NoExamples | None => []
  end.

Definition subtypeRows (b : SubtypesView) : list SubtypeView :=
  match b with
  | SubtypeItems items => items
  | NoSubtypes => []
  end.

Definition subtypesShown (v : TopicView) : list SubtypeView :=
  match tv_body v with
  | Some b => subtypeRows b
  | None => []
  end.

Definition shownExamples (views : list TopicView) : list ExampleView :=
  concat (map (fun v => concat (map examplesShown (subtypesShown v))) views).

(** The urls of the expanded subtypes of a topic, when it is expanded. *)
Definition rowExamples (st : ExpansionState) (tIdx : nat) (topic : Topic)
  : list string :=
  if isOpen st tIdx then
    concat (imap (fun sIdx sub =>
              if subOpen st tIdx sIdx then default [] (examples sub) else [])
            (default [] (subtypes topic)))
  else [].

(** The urls of the expanded subtypes of the expanded topics. *)
Definition visibleExamples (st : ExpansionState) (ts : list Topic) : list string :=
  concat (imap (rowExamples st) ts).

(** Every url of the document. *)
Definition allExamples (ts : list Topic) : list string :=
  concat (map (fun topic =>
            concat (map (fun sub => default [] (examples sub))
                        (default [] (subtypes topic)))) ts).

(** The shape of the pieces of [Emphasis.split]: pieces between matches
    alternate with matches, which are a non-empty star-free text between two
    stars; a piece between matches is classified as plain or is made of
    stars only. *)
Inductive Pieces : list string -> Prop :=
  | pieces_last (p : string) :
      Emphasis.classify p = Emphasis.Plain p \/ allStars p = true ->
      Pieces [p]
  | pieces_pair (p w : string) (rest : list string) :
      Emphasis.classify p = Emphasis.Plain p \/ allStars p = true ->
      w <> "" -> Emphasis.starFree w = true -> Pieces rest ->
      Pieces (p :: ("*" +:+ w +:+ "*") :: rest).

(** Segments in which every second one is emphasized with a non-empty
    star-free content. *)
Inductive Alternates : list Emphasis.Segment -> Prop :=
  | alternates_last (seg : Emphasis.Segment) : Alternates [seg]
  | alternates_pair (seg : Emphasis.Segment) (w : string)
      (rest : list Emphasis.Segment) :
      w <> "" -> Emphasis.starFree w = true -> Alternates rest ->
      Alternates (seg :: Emphasis.Emphasized w :: rest).

(** What may follow a star that opens no match: nothing, another star, or
    text without any star. *)
Definition nextOK (s : string) : bool :=
  match s with
  | EmptyString => true
  | String c _ => Emphasis.isStar c || Emphasis.starFree s
  end.

(** The state of the scan of [Emphasis.splitLoop]: what has been collected
    since the last match and what is left of the text. *)
Definition scanInv (cur s : string) : Prop :=
  (allStars cur = true /\ (cur = "" \/ nextOK s = true))
  \/ (startsWith cur "*" = false /\ cur <> "")
  \/ (Emphasis.starFree s = true /\ endsWithChar cur Emphasis.star = false).

(** ** The parsing rule of the formatter in the words of the specification

    A delimiter opens and the next delimiter closes; the text they enclose,
    when it is not empty, becomes an emphasized segment.  Everything else is
    plain text, in the original order: it is collected in [plain] until an
    emphasized segment or the end of the text cuts it off.  A delimiter that
    is never closed, or that is closed at once, encloses nothing that can be
    emphasized and is plain text itself; the scan goes on with the character
    behind it.  Every step consumes a character, so [String.length s] steps
    are enough.

    [keepEmpty] says whether a plain segment is also produced when no plain
    text has been collected; the specification produces none
    (its text ["*word*"] gives one segment). *)
Fixpoint untilStar (s : string) : string * string :=
  match s with
  | EmptyString => (EmptyString, EmptyString)
  | String c r =>
      if Ascii.eqb c "*" then (EmptyString, s)
      else let '(a, b) := untilStar r in (String c a, b)
  end.

Definition plainSegment (keepEmpty : bool) (plain : string)
  : list Emphasis.Segment :=
  match plain with
  | EmptyString => if keepEmpty then [Emphasis.Plain plain] else []
  | String _ _ => [Emphasis.Plain plain]
  end.

Fixpoint ruleScan (keepEmpty : bool) (fuel : nat) (plain s : string)
  : list Emphasis.Segment :=
  match s with
  | EmptyString => plainSegment keepEmpty plain
  | String c r =>
      match fuel with
      | O => plainSegment keepEmpty (plain +:+ s)
      | S fuel' =>
          if Ascii.eqb c "*" then
            match untilStar r with
            | (String i inner, String _ rest) =>
                plainSegment keepEmpty plain
                ++ Emphasis.Emphasized (String i inner)
                   :: ruleScan keepEmpty fuel' EmptyString rest
            | _ => ruleScan keepEmpty fuel' (plain +:+ "*") r
            end
          else ruleScan keepEmpty fuel' (plain +:+ String c EmptyString) r
      end
  end.

Definition specSegments (text : string) : list Emphasis.Segment :=
  ruleScan false (String.length text) EmptyString text.

Definition specSegmentsWithEmpty (text : string) : list Emphasis.Segment :=
  ruleScan true (String.length text) EmptyString text.

(** The two differences between the formatter and the rule: plain segments
    without text, and plain segments that are a run of two or more
    delimiters, which the formatter emphasizes without their first and last
    character. *)
Definition isEmptyPlain (seg : Emphasis.Segment) : bool :=
  match seg with
  | Emphasis.Plain EmptyString => true
  | _ => false
  end.

Definition dropEmptyPlain (l : list Emphasis.Segment) : list Emphasis.Segment :=
  List.filter (fun seg => negb (isEmptyPlain seg)) l.

Definition isStarRun (p : string) : bool :=
  allStars p && (2 <=? String.length p)%nat.

Definition emphasizeStarRun (seg : Emphasis.Segment) : Emphasis.Segment :=
  match seg with
  | Emphasis.Plain p =>
      if isStarRun p then Emphasis.Emphasized (slice_1_m1 p) else Emphasis.Plain p
  | Emphasis.Emphasized w => Emphasis.Emphasized w
  end.

Definition plainStarRun (seg : Emphasis.Segment) : bool :=
  match seg with
  | Emphasis.Plain p => isStarRun p
  | Emphasis.Emphasized _ => false
  end.

(** ** The enumeration order of an object

    [Object.entries] lists the keys that are array indices (decimal numbers
    up to 2^32 - 2 written without sign or leading zero) in ascending order
    first, then the other keys in the order of their creation; keys are
    distinct. *)
Definition arrayIndex (k : string) : option Z :=
  match digitsIn 10 k with
  | Some n =>
      if (n <=? 4294967294)%Z
         && (String.eqb k "0" || negb (startsWith k "0"))
      then Some n else None
  | None => None
  end.

Definition isIndexKey (k : string) : bool :=
  match arrayIndex k with
  | Some _ => true
  | None => false
  end.

Fixpoint ascending (l : list Z) : bool :=
  match l with
  | x :: ((y :: _) as r) => (x <? y)%Z && ascending r
  | _ => true
  end.

Fixpoint distinct (l : list string) : bool :=
  match l with
  | [] => true
  | k :: r => negb (existsb (String.eqb k) r) && distinct r
  end.

Fixpoint indicesFirst (l : list string) : bool :=
  match l with
  | [] => true
  | k :: r => if isIndexKey k then indicesFirst r
              else negb (existsb isIndexKey r)
  end.

Definition enumerationOrder (db : Database) : bool :=
  let keys := map fst db in
  distinct keys && indicesFirst keys
  && ascending (omap arrayIndex keys).

(** ** Sample data *)

Definition sampleDb : Database :=
  [ ("2", {| topic_type := "Lists";
             subtypes := Some [ {| subtype_type := "Top N"; examples := None |};
                                {| subtype_type := "Ranked";
                                   examples := Some ["https://youtu.be/a"] |} ] |});
    ("10", {| topic_type := "Curiosity *gap*"; subtypes := None |});
    ("01", {| topic_type := "Questions"; subtypes := Some [] |}) ].

(** Two keys above 2^53 that round to the same double. *)
Definition bigDb : Database :=
  [ ("9007199254740993", {| topic_type := "later"; subtypes := None |});
    ("9007199254740992", {| topic_type := "earlier"; subtypes := None |}) ].

(** Keys that are numbers without being plain decimal integers. *)
Definition mixedDb : Database :=
  [ ("1e3", {| topic_type := "thousand"; subtypes := None |});
    ("1.5", {| topic_type := "one and a half"; subtypes := None |});
    (" 7", {| topic_type := "seven"; subtypes := None |});
    ("-1", {| topic_type := "minus one"; subtypes := None |}) ].

(** A document whose only topic has no [subtypes] field. *)
Definition bareDb : Database :=
  [ ("1", {| topic_type := "Questions"; subtypes := None |}) ].

(** * Properties *)

(** ** Strings *)

Lemma sapp_nil_l (s : string) : "" +:+ s = s.
Proof. reflexivity. Qed.

Lemma sapp_cons (c : ascii) (s t : string) :
  String c s +:+ t = String c (s +:+ t).
Proof. reflexivity. Qed.

Lemma sapp_nil_r (s : string) : s +:+ "" = s.
Proof.
  induction s as [|c s IH]; [reflexivity|]. now rewrite sapp_cons, IH.
Qed.

Lemma sapp_assoc (s t u : string) : (s +:+ t) +:+ u = s +:+ (t +:+ u).
Proof.
  induction s as [|c s IH]; [reflexivity|]. now rewrite !sapp_cons, IH.
Qed.

Lemma length_sapp (s t : string) :
  String.length (s +:+ t) = (String.length s + String.length t)%nat.
Proof.
  induction s as [|c s IH]; [reflexivity|].
  rewrite sapp_cons. cbn. now rewrite IH.
Qed.

Lemma lastChar_snoc (s : string) (c : ascii) :
  lastChar (s +:+ String c "") = Some c.
Proof.
  induction s as [|d s IH]; [reflexivity|].
  rewrite sapp_cons. cbn [lastChar]. rewrite IH.
  destruct (s +:+ String c "") eqn:E; [|reflexivity].
  destruct s; discriminate.
Qed.

Lemma lastChar_split (s : string) (d : ascii) :
  lastChar s = Some d ->
  s = String.substring 0 (String.length s - 1) s +:+ String d "".
Proof.
  induction s as [|c s IH]; [discriminate|].
  destruct s as [|c' s'].
  - cbn. now intros [= ->].
  - intros H. change (lastChar (String c' s') = Some d) in H.
    specialize (IH H).
    replace (String.length (String c (String c' s')) - 1)%nat
      with (S (String.length (String c' s') - 1)) by (cbn; lia).
    cbn [String.substring]. rewrite sapp_cons. f_equal. exact IH.
Qed.

Lemma substring_0_sapp (s t : string) :
  String.substring 0 (String.length s) (s +:+ t) = s.
Proof.
  induction s as [|c s IH].
  - now destruct t.
  - rewrite sapp_cons. cbn [String.length String.substring]. now rewrite IH.
Qed.

Lemma startsWith_nil (s : string) : startsWith s "" = true.
Proof. now destruct s. Qed.

Lemma startsWith_cons (c p : ascii) (s ps : string) :
  startsWith (String c s) (String p ps)
  = if ascii_dec p c then startsWith s ps else false.
Proof. reflexivity. Qed.

Lemma startsWith_star (s : string) :
  startsWith s "*" = true -> exists r, s = String Emphasis.star r.
Proof.
  destruct s as [|c r]; [intros [=]|].
  rewrite startsWith_cons.
  destruct (ascii_dec "*" c) as [<-|]; [|intros [=]]. intros _. now exists r.
Qed.

(** ** The emphasis formatter *)

Section EmphasisFacts.
Import Emphasis.

Lemma isStar_true (c : ascii) : isStar c = true -> c = star.
Proof. unfold isStar. now rewrite Ascii.eqb_eq. Qed.

Lemma spanNonStar_spec (s a b : string) :
  spanNonStar s = (a, b) -> s = a +:+ b /\ starFree a = true.
Proof.
  revert a b. induction s as [|c r IH]; intros a b; cbn.
  - now intros [= <- <-].
  - destruct (isStar c) eqn:Hc.
    + now intros [= <- <-].
    + destruct (spanNonStar r) as [a' b']. intros [= <- <-].
      destruct (IH a' b' eq_refl) as [-> Hf]. cbn. now rewrite Hc.
Qed.

Lemma spanNonStar_sapp (w post : string) :
  starFree w = true ->
  spanNonStar (w +:+ String star post) = (w, String star post).
Proof.
  induction w as [|c w IH]; cbn; [reflexivity|].
  intros [Hc Hw]%andb_prop. rewrite sapp_cons.
  apply negb_true_iff in Hc. cbn. rewrite Hc, (IH Hw). reflexivity.
Qed.

Lemma matchAt_sound (s m rest : string) :
  matchAt s = Some (m, rest) ->
  s = m +:+ rest /\ (String.length rest < String.length s)%nat.
Proof.
  destruct s as [|c r]; cbn; [discriminate|].
  destruct (isStar c); [|discriminate].
  destruct (spanNonStar r) as [a b] eqn:E.
  destruct a as [|i inner]; [discriminate|].
  destruct b as [|e rest']; [discriminate|].
  intros [= <- <-]. apply spanNonStar_spec in E as [-> _].
  split.
  - rewrite !sapp_cons, sapp_assoc. reflexivity.
  - cbn. rewrite length_sapp. cbn. lia.
Qed.

Lemma matchAt_nonStar (c : ascii) (r : string) :
  isStar c = false -> matchAt (String c r) = None.
Proof. intros H. cbn. now rewrite H. Qed.

Lemma matchAt_delimited (w post : string) :
  starFree w = true -> w <> "" ->
  matchAt (String star (w +:+ String star post))
  = Some (String star (w +:+ String star ""), post).
Proof.
  intros Hw Hne. cbn. rewrite (spanNonStar_sapp w post Hw).
  destruct w; [contradiction|reflexivity].
Qed.

(** The pieces of a split put together give back the text, whatever the
    fuel. *)
Lemma concatAll_splitLoop (fuel : nat) (cur s : string) :
  concatAll (splitLoop fuel cur s) = cur +:+ s.
Proof.
  revert cur s. induction fuel as [|fuel IH]; intros cur s.
  - destruct s; cbn; [reflexivity|now rewrite sapp_nil_r].
  - destruct s as [|c r]; [reflexivity|].
    cbn [splitLoop]. destruct (matchAt (String c r)) as [[m rest]|] eqn:E.
    + apply matchAt_sound in E as [E _].
      cbn [concatAll]. rewrite IH, E. reflexivity.
    + rewrite IH, sapp_assoc. reflexivity.
Qed.

(** The length of the text is enough fuel: more fuel gives the same pieces. *)
Lemma splitLoop_fuel (f1 f2 : nat) (cur s : string) :
  (String.length s <= f1)%nat -> (String.length s <= f2)%nat ->
  splitLoop f1 cur s = splitLoop f2 cur s.
Proof.
  revert f2 cur s. induction f1 as [|f1 IH]; intros f2 cur s H1 H2.
  - destruct s; [now destruct f2|cbn in H1; lia].
  - destruct s as [|c r]; [now destruct f2|].
    destruct f2 as [|f2]; [cbn in H2; lia|].
    cbn [splitLoop]. cbn in H1, H2.
    destruct (matchAt (String c r)) as [[m rest]|] eqn:E.
    + apply matchAt_sound in E as [_ E]. cbn in E.
      f_equal. f_equal. apply IH; lia.
    + apply IH; lia.
Qed.

Lemma splitLoop_plain_prefix (pre : string) (n : nat) (cur t : string) :
  starFree pre = true ->
  splitLoop (String.length pre + n) cur (pre +:+ t)
  = splitLoop n (cur +:+ pre) t.
Proof.
  revert cur. induction pre as [|c pre IH]; intros cur Hf.
  - cbn. now rewrite sapp_nil_r.
  - cbn in Hf. apply andb_prop in Hf as [Hc Hf]. apply negb_true_iff in Hc.
    rewrite sapp_cons. cbn [String.length Nat.add splitLoop].
    rewrite (matchAt_nonStar _ _ Hc), (IH _ Hf), sapp_assoc. reflexivity.
Qed.

Lemma split_starFree (text : string) :
  starFree text = true -> split text = [text].
Proof.
  intros Hf. unfold split.
  rewrite <- (sapp_nil_r text) at 2. rewrite <- (Nat.add_0_r (String.length text)).
  rewrite (splitLoop_plain_prefix text 0 "" "" Hf). reflexivity.
Qed.

Lemma split_delimited (pre w post : string) :
  starFree pre = true -> starFree w = true -> w <> "" ->
  split (pre +:+ "*" +:+ w +:+ "*" +:+ post)
  = pre :: ("*" +:+ w +:+ "*") :: split post.
Proof.
  intros Hp Hw Hne. unfold split.
  rewrite length_sapp.
  rewrite (splitLoop_plain_prefix pre _ "" _ Hp).
  change ("*" +:+ w +:+ "*" +:+ post) with (String star (w +:+ String star post)).
  cbn [String.length splitLoop].
  rewrite (matchAt_delimited w post Hw Hne).
  change ("" +:+ pre) with pre.
  change ("*" +:+ w +:+ "*") with (String star (w +:+ String star "")).
  f_equal. f_equal. apply splitLoop_fuel; [|lia].
  rewrite length_sapp. cbn. lia.
Qed.

Lemma classify_starFree (s : string) :
  starFree s = true -> classify s = Plain s.
Proof.
  intros Hf. unfold classify.
  destruct s as [|c r]; [reflexivity|].
  cbn in Hf. apply andb_prop in Hf as [Hc _]. apply negb_true_iff in Hc.
  rewrite startsWith_cons.
  destruct (ascii_dec "*" c) as [<-|]; [discriminate|reflexivity].
Qed.

Lemma classify_delimited (w : string) :
  classify ("*" +:+ w +:+ "*") = Emphasized w.
Proof.
  unfold classify, endsWithChar.
  change ("*" +:+ w +:+ "*") with (String star (w +:+ String star "")).
  rewrite <- sapp_cons, lastChar_snoc, sapp_cons.
  rewrite startsWith_cons, startsWith_nil.
  destruct (ascii_dec "*" star) as [_|N]; [|now destruct N].
  rewrite Ascii.eqb_refl. cbn [andb String.length].
  rewrite length_sapp. cbn [String.length].
  replace (2 <=? S (String.length w + 1))%nat with true
    by (symmetry; apply Nat.leb_le; lia).
  unfold slice_1_m1. cbn [String.length]. rewrite length_sapp. cbn [String.length].
  replace (S (String.length w + 1) - 2)%nat with (String.length w) by lia.
  cbn [String.substring]. now rewrite substring_0_sapp.
Qed.

Lemma unparse_classify (part : string) : unparse (classify part) = part.
Proof.
  unfold classify.
  destruct (startsWith part "*") eqn:Hs; [|reflexivity].
  destruct (endsWithChar part star) eqn:He; [|reflexivity].
  destruct (2 <=? String.length part)%nat eqn:Hl; [|reflexivity].
  cbn [andb unparse].
  apply startsWith_star in Hs as [r ->]. apply Nat.leb_le in Hl.
  unfold endsWithChar in He.
  destruct r as [|c r']; [cbn in Hl; lia|].
  change (lastChar (String star (String c r'))) with (lastChar (String c r')) in He.
  destruct (lastChar (String c r')) as [d|] eqn:Hd; [|discriminate].
  apply Ascii.eqb_eq in He as ->.
  apply lastChar_split in Hd.
  unfold slice_1_m1.
  change (String.length (String star (String c r')) - 2)%nat
    with (String.length (String c r') - 1)%nat.
  change (String.substring 1 ?n (String star ?s)) with (String.substring 0 n s).
  change ("*" +:+ ?x) with (String star x).
  f_equal. symmetry. exact Hd.
Qed.

(** C1: what the formatter does on a lone delimiter and on an empty pair.
    The text ["*"] comes back as the single plain segment ["*"].  The text
    ["**"] is not split by the pattern (the body of a pair must be
    non-empty), but the test on the pieces accepts it: it starts and ends
    with a star and has length 2, so it becomes an emphasized segment with
    empty content and is not passed through as plain text.  Inside other
    plain text the same two characters are kept literally. *)
Theorem formatEmphasis_lone_and_empty_pair :
  formatEmphasis "*" = [Plain "*"]
  /\ formatEmphasis "**" = [Emphasized ""]
  /\ formatEmphasis "a**b" = [Plain "a**b"].
Proof. repeat split; reflexivity. Qed.

(** C10: writing the segments of [formatEmphasis text] back in order, an
    emphasized segment between two stars and a plain segment as it is,
    gives [text] again. *)
Theorem formatEmphasis_roundtrip (text : string) :
  concatAll (map unparse (formatEmphasis text)) = text.
Proof.
  unfold formatEmphasis. rewrite map_map.
  rewrite (map_ext _ (fun part => part) unparse_classify), map_id.
  unfold split. now rewrite concatAll_splitLoop.
Qed.

End EmphasisFacts.

(** ** Expansion state *)

Lemma string_of_uint_key_inj (a a' b b' : Decimal.uint) :
  NilEmpty.string_of_uint a +:+ "-" +:+ NilEmpty.string_of_uint b
  = NilEmpty.string_of_uint a' +:+ "-" +:+ NilEmpty.string_of_uint b' ->
  a = a' /\ b = b'.
Proof.
  revert a'. induction a as [|a IH|a IH|a IH|a IH|a IH|a IH|a IH|a IH|a IH|a IH];
    intros [|a'|a'|a'|a'|a'|a'|a'|a'|a'|a']; cbn [NilEmpty.string_of_uint];
    rewrite ?sapp_cons, ?sapp_nil_l; intros H; try discriminate H;
    injection H as H.
  - split; [reflexivity|].
    assert (E : NilEmpty.uint_of_string (NilEmpty.string_of_uint b)
                = NilEmpty.uint_of_string (NilEmpty.string_of_uint b'))
      by now rewrite H.
    rewrite !NilEmpty.usu in E. now injection E.
  - destruct (IH _ H) as [-> ->]. now split.
  - destruct (IH _ H) as [-> ->]. now split.
  - destruct (IH _ H) as [-> ->]. now split.
  - destruct (IH _ H) as [-> ->]. now split.
  - destruct (IH _ H) as [-> ->]. now split.
  - destruct (IH _ H) as [-> ->]. now split.
  - destruct (IH _ H) as [-> ->]. now split.
  - destruct (IH _ H) as [-> ->]. now split.
  - destruct (IH _ H) as [-> ->]. now split.
  - destruct (IH _ H) as [-> ->]. now split.
Qed.

(** Two composite keys are equal only for the same pair of indices. *)
Lemma subtypeKey_inj (t s t' s' : nat) :
  subtypeKey t s = subtypeKey t' s' -> t = t' /\ s = s'.
Proof.
  unfold subtypeKey, toString. intros H.
  apply string_of_uint_key_inj in H as [Ht Hs].
  split; now apply Unsigned.to_uint_inj.
Qed.

Lemma truthy_insert_eq {K : Type} `{Countable K} (m : gmap K bool) (k : K) (v : bool) :
  truthy (<[k := v]> m !! k) = v.
Proof. now rewrite lookup_insert_eq. Qed.

(** C5: [toggleTopic idx] flips the flag of topic [idx], keeps the entry of
    every other topic and the whole subtype map; [toggleSubtype t s] flips
    the flag of the pair [(t, s)], keeps the entry of every other pair and
    the whole topic map. *)
Theorem toggle_flips_exactly_one (st : ExpansionState) :
  (forall idx : nat,
      isOpen (toggleTopic idx st) idx = negb (isOpen st idx)
      /\ (forall j : nat, j <> idx ->
            expandedTopics (toggleTopic idx st) !! j = expandedTopics st !! j
            /\ isOpen (toggleTopic idx st) j = isOpen st j)
      /\ expandedSubtypes (toggleTopic idx st) = expandedSubtypes st
      /\ (forall t s : nat, subOpen (toggleTopic idx st) t s = subOpen st t s))
  /\ (forall t s : nat,
        subOpen (toggleSubtype t s st) t s = negb (subOpen st t s)
        /\ (forall t' s' : nat, (t', s') <> (t, s) ->
              expandedSubtypes (toggleSubtype t s st) !! subtypeKey t' s'
              = expandedSubtypes st !! subtypeKey t' s'
              /\ subOpen (toggleSubtype t s st) t' s' = subOpen st t' s')
        /\ expandedTopics (toggleSubtype t s st) = expandedTopics st
        /\ (forall j : nat, isOpen (toggleSubtype t s st) j = isOpen st j)).
Proof.
  split.
  - intros idx. repeat split.
    + unfold isOpen, toggleTopic; cbn. apply truthy_insert_eq.
    + unfold toggleTopic; cbn. now rewrite lookup_insert_ne.
    + unfold isOpen, toggleTopic; cbn. now rewrite lookup_insert_ne.
  - intros t s. repeat split.
    + unfold subOpen, toggleSubtype; cbn. apply truthy_insert_eq.
    + unfold toggleSubtype; cbn. rewrite lookup_insert_ne; [reflexivity|].
      intros E. apply subtypeKey_inj in E as [-> ->]. now apply H.
    + unfold subOpen, toggleSubtype; cbn. rewrite lookup_insert_ne; [reflexivity|].
      intros E. apply subtypeKey_inj in E as [-> ->]. now apply H.
Qed.

Lemma toggle_flips_exactly_one_witness :
  let st := toggleSubtype 0 0 (TitlesPage.initial []) in
  (0%nat, 0%nat) <> (0%nat, 1%nat) /\ (1%nat, 1%nat) <> (0%nat, 1%nat)
  /\ subOpen (toggleSubtype 0 1 st) 0 1 = true
  /\ subOpen (toggleSubtype 0 1 st) 0 0 = subOpen st 0 0
  /\ subOpen (toggleSubtype 0 1 st) 1 1 = subOpen st 1 1.
Proof.
  intros st.
  assert (N00 : (0%nat, 0%nat) <> (0%nat, 1%nat)) by discriminate.
  assert (N11 : (1%nat, 1%nat) <> (0%nat, 1%nat)) by discriminate.
  destruct (proj2 (toggle_flips_exactly_one st) 0%nat 1%nat) as (Hflip & Hother & _).
  split; [exact N00|]. split; [exact N11|]. split; [|split].
  - rewrite Hflip. reflexivity.
  - exact (proj2 (Hother 0%nat 0%nat N00)).
  - exact (proj2 (Hother 1%nat 1%nat N11)).
Defined.

(** ** The order of the topics *)

Section SortFacts.
Context {A : Type} (cmp : A -> A -> Z).

Lemma insertBy_perm (x : A) (l : list A) :
  Permutation (insertBy cmp x l) (x :: l).
Proof.
  induction l as [|y l IH]; cbn; [reflexivity|].
  destruct (cmp x y <=? 0)%Z; [reflexivity|].
  rewrite IH. apply perm_swap.
Qed.

Lemma sortBy_perm (l : list A) : Permutation (sortBy cmp l) l.
Proof.
  induction l as [|x l IH]; cbn; [reflexivity|].
  rewrite insertBy_perm. now constructor.
Qed.

End SortFacts.

Lemma StronglySorted_weaken {A : Type} (R S : A -> A -> Prop) (l : list A) :
  (forall a b, R a b -> S a b) -> StronglySorted R l -> StronglySorted S l.
Proof.
  intros H Hs. induction Hs as [|x l Hs IH Hx]; constructor; [exact IH|].
  eapply Forall_impl; [exact Hx|]. intros y. apply H.
Qed.

(** When the comparator decides a total preorder on the elements at hand,
    the insertion sort arranges them in that order and is stable. *)
Section SortOrder.
Context {A : Type} (cmp : A -> A -> Z) (leb : A -> A -> bool) (good : A -> Prop).
Hypothesis cmp_leb :
  forall a b, good a -> good b -> (cmp a b <=? 0)%Z = leb a b.
Hypothesis leb_trans :
  forall a b c, good a -> good b -> good c ->
                leb a b = true -> leb b c = true -> leb a c = true.
Hypothesis leb_total :
  forall a b, good a -> good b -> leb a b = false -> leb b a = true.

Let le (a b : A) : Prop := leb a b = true.

Lemma insertBy_sorted_leb (x : A) (l : list A) :
  good x -> Forall good l ->
  StronglySorted le l -> StronglySorted le (insertBy cmp x l).
Proof.
  intros Hx Hl Hs. induction Hs as [|y l Hs IH Hy]; cbn.
  - repeat constructor.
  - inversion_clear Hl as [|? ? Gy Gl].
    rewrite (cmp_leb x y Hx Gy).
    destruct (leb x y) eqn:E.
    + constructor; [now constructor|].
      constructor; [exact E|].
      rewrite List.Forall_forall in Hy, Gl. apply List.Forall_forall.
      intros z Hz. apply (leb_trans x y z Hx Gy (Gl z Hz) E). now apply Hy.
    + constructor; [now apply IH|].
      eapply Permutation_Forall; [symmetry; apply insertBy_perm|].
      constructor; [now apply leb_total|exact Hy].
Qed.

Lemma sortBy_sorted_leb (l : list A) :
  Forall good l -> StronglySorted le (sortBy cmp l).
Proof.
  induction l as [|x l IH]; cbn; intros Hl; [constructor|].
  inversion_clear Hl as [|? ? Gx Gl].
  apply insertBy_sorted_leb; [exact Gx| |now apply IH].
  eapply Permutation_Forall; [symmetry; apply sortBy_perm|exact Gl].
Qed.

Lemma insertBy_head_leb (x : A) (l : list A) :
  good x -> Forall good l -> Forall (le x) l -> insertBy cmp x l = x :: l.
Proof.
  intros Hx Hl Hle. destruct l as [|y r]; [reflexivity|]. cbn.
  inversion_clear Hl as [|? ? Gy _]. inversion_clear Hle as [|? ? Ly _].
  now rewrite (cmp_leb x y Hx Gy), Ly.
Qed.

Lemma sortBy_sorted_id_leb (l : list A) :
  Forall good l -> StronglySorted le l -> sortBy cmp l = l.
Proof.
  intros Hl Hs. induction Hs as [|x l Hs IH Hx]; [reflexivity|].
  inversion_clear Hl as [|? ? Gx Gl].
  change (sortBy cmp (x :: l)) with (insertBy cmp x (sortBy cmp l)).
  rewrite (IH Gl). now apply insertBy_head_leb.
Qed.

(** A class of elements that the order does not separate keeps its
    order. *)
Variable inClass : A -> bool.
Hypothesis class_tied :
  forall a b, good a -> good b ->
              inClass a = true -> inClass b = true -> leb a b = true.

Lemma insertBy_filter_leb (x : A) (l : list A) :
  good x -> Forall good l ->
  List.filter inClass (insertBy cmp x l) = List.filter inClass (x :: l).
Proof.
  intros Hx Hl. induction l as [|y r IH]; [reflexivity|].
  inversion_clear Hl as [|? ? Gy Gr]. cbn [insertBy].
  rewrite (cmp_leb x y Hx Gy).
  destruct (leb x y) eqn:E; [reflexivity|].
  cbn [List.filter]. rewrite (IH Gr). cbn [List.filter].
  destruct (inClass x) eqn:Ex, (inClass y) eqn:Ey; try reflexivity.
  rewrite (class_tied x y Hx Gy Ex Ey) in E. discriminate E.
Qed.

Lemma sortBy_filter_leb (l : list A) :
  Forall good l ->
  List.filter inClass (sortBy cmp l) = List.filter inClass l.
Proof.
  induction l as [|x l IH]; intros Hl; [reflexivity|].
  inversion_clear Hl as [|? ? Gx Gl].
  change (sortBy cmp (x :: l)) with (insertBy cmp x (sortBy cmp l)).
  rewrite insertBy_filter_leb; [|exact Gx|].
  - cbn [List.filter]. now rewrite (IH Gl).
  - eapply Permutation_Forall; [symmetry; apply sortBy_perm|exact Gl].
Qed.

End SortOrder.

(** The same for a comparator that follows an integer measure [key]. *)
Section SortFactsKey.
Context {A : Type} (cmp : A -> A -> Z).
Variable key : A -> Z.
Variable good : A -> Prop.
Hypothesis cmp_key :
  forall a b, good a -> good b -> (cmp a b <=? 0)%Z = (key a <=? key b)%Z.

Let le (a b : A) : Prop := (key a <= key b)%Z.

Lemma keyLeb_trans (a b c : A) :
  good a -> good b -> good c ->
  (key a <=? key b)%Z = true -> (key b <=? key c)%Z = true ->
  (key a <=? key c)%Z = true.
Proof. intros _ _ _ H1 H2. apply Z.leb_le. apply Z.leb_le in H1, H2. lia. Qed.

Lemma keyLeb_total (a b : A) :
  good a -> good b ->
  (key a <=? key b)%Z = false -> (key b <=? key a)%Z = true.
Proof. intros _ _ H. apply Z.leb_le. apply Z.leb_gt in H. lia. Qed.

Lemma insertBy_sorted (x : A) (l : list A) :
  good x -> Forall good l ->
  StronglySorted le l -> StronglySorted le (insertBy cmp x l).
Proof.
  intros Hx Hl Hs.
  apply (StronglySorted_weaken (fun a b => (key a <=? key b)%Z = true)).
  { intros a b. apply Z.leb_le. }
  apply (insertBy_sorted_leb cmp _ good cmp_key keyLeb_trans keyLeb_total);
    [exact Hx|exact Hl|].
  apply (StronglySorted_weaken le); [|exact Hs]. intros a b. apply Z.leb_le.
Qed.

Lemma sortBy_sorted (l : list A) :
  Forall good l -> StronglySorted le (sortBy cmp l).
Proof.
  intros Hl.
  apply (StronglySorted_weaken (fun a b => (key a <=? key b)%Z = true)).
  { intros a b. apply Z.leb_le. }
  now apply (sortBy_sorted_leb cmp _ good cmp_key keyLeb_trans keyLeb_total).
Qed.

Lemma sortBy_sorted_id (l : list A) :
  Forall good l -> StronglySorted le l -> sortBy cmp l = l.
Proof.
  intros Hl Hs.
  apply (sortBy_sorted_id_leb cmp (fun a b => (key a <=? key b)%Z) good cmp_key);
    [exact Hl|].
  apply (StronglySorted_weaken le); [|exact Hs]. intros a b. apply Z.leb_le.
Qed.

Lemma sortBy_filter (k : Z) (l : list A) :
  Forall good l ->
  List.filter (fun e => (key e =? k)%Z) (sortBy cmp l)
  = List.filter (fun e => (key e =? k)%Z) l.
Proof.
  apply (sortBy_filter_leb cmp (fun a b => (key a <=? key b)%Z) good cmp_key).
  intros a b _ _ Ha Hb. apply Z.eqb_eq in Ha, Hb. apply Z.leb_le. lia.
Qed.

(** With pairwise distinct keys the ascending arrangement of a list is
    unique: whatever algorithm sorts, it returns this list. *)
Lemma sorted_perm_unique (l1 l2 : list A) :
  List.NoDup (map key l1) -> Permutation l1 l2 ->
  StronglySorted le l1 -> StronglySorted le l2 -> l1 = l2.
Proof.
  revert l2. induction l1 as [|x l1 IH]; intros l2 Hnd Hp Hs1 Hs2.
  - now apply Permutation_nil in Hp.
  - destruct l2 as [|y l2]; [now apply Permutation_sym, Permutation_nil in Hp|].
    cbn [map] in Hnd. apply List.NoDup_cons_iff in Hnd as [Hx Hnd].
    apply StronglySorted_inv in Hs1 as [Hs1 Hx1].
    apply StronglySorted_inv in Hs2 as [Hs2 Hy2].
    assert (Hyx : y = x).
    { assert (Hy : In y (x :: l1))
        by (apply (Permutation_in y (Permutation_sym Hp)); now left).
      destruct Hy as [E|Hy]; [now symmetry|].
      assert (Hx' : In x (y :: l2)) by (apply (Permutation_in x Hp); now left).
      destruct Hx' as [E|Hx']; [exact E|].
      rewrite List.Forall_forall in Hx1, Hy2.
      pose proof (Hx1 y Hy) as L1. pose proof (Hy2 x Hx') as L2.
      unfold le in L1, L2. exfalso. apply Hx.
      replace (key x) with (key y) by lia. now apply in_map. }
    subst y. f_equal.
    apply IH; [exact Hnd| |exact Hs1|exact Hs2].
    now apply Permutation_cons_inv in Hp.
Qed.

End SortFactsKey.

(** ** Numbers *)

Lemma numLeb_trans (x y z : JSNumber) :
  numLeb x y = true -> numLeb y z = true -> numLeb x z = true.
Proof.
  destruct x, y, z; cbn; try discriminate; try reflexivity.
  intros H1 H2. apply Z.leb_le in H1, H2. apply Z.leb_le. lia.
Qed.

Lemma numLeb_total (x y : JSNumber) :
  isNaN x = false -> isNaN y = false ->
  numLeb x y = false -> numLeb y x = true.
Proof.
  destruct x, y; cbn; try discriminate; try reflexivity.
  intros _ _ H. apply Z.leb_gt in H. apply Z.leb_le. lia.
Qed.

Lemma subSign_leb (x y : JSNumber) :
  isNaN x = false -> isNaN y = false ->
  (subSign x y <=? 0)%Z = numLeb x y.
Proof.
  destruct x, y; cbn; try discriminate; try reflexivity.
  intros _ _.
  destruct (Z.leb_spec units units0) as [H|H];
    destruct (Z.sgn_spec (units - units0)) as [[? ->]|[[? ->]|[? ->]]];
    try reflexivity; lia.
Qed.

Lemma digitIn_10_range (c : ascii) (d : Z) :
  digitIn 10 c = Some d -> (0 <= d < 10)%Z.
Proof.
  unfold digitIn. cbv zeta.
  set (n := Z.of_nat (nat_of_ascii c)).
  destruct ((48 <=? n)%Z && (n <=? 57)%Z) eqn:E1.
  - apply andb_true_iff in E1 as [H1 H2].
    apply Z.leb_le in H1, H2.
    destruct (n - 48 <? 10)%Z; [|discriminate]. intros [= <-]. lia.
  - destruct ((97 <=? n)%Z && (n <=? 102)%Z) eqn:E2.
    + apply andb_true_iff in E2 as [H1 H2]. apply Z.leb_le in H1, H2.
      destruct (n - 87 <? 10)%Z eqn:E; [|discriminate].
      apply Z.ltb_lt in E. lia.
    + destruct ((65 <=? n)%Z && (n <=? 70)%Z) eqn:E3; [|discriminate].
      apply andb_true_iff in E3 as [H1 H2]. apply Z.leb_le in H1, H2.
      destruct (n - 55 <? 10)%Z eqn:E; [|discriminate].
      apply Z.ltb_lt in E. lia.
Qed.

Lemma digitsFrom_nonneg (s : string) (acc n : Z) :
  digitsFrom 10 acc s = Some n -> (0 <= acc)%Z -> (0 <= n)%Z.
Proof.
  revert acc. induction s as [|c r IH]; intros acc; cbn.
  - now intros [= <-].
  - destruct (digitIn 10 c) as [d|] eqn:E; [|discriminate].
    apply digitIn_10_range in E. intros H Ha. apply (IH _ H). lia.
Qed.

Lemma find_none {A : Type} (f : A -> bool) (l : list A) :
  (forall x, In x l -> f x = false) -> List.find f l = None.
Proof.
  induction l as [|x l IH]; intros H; [reflexivity|]. cbn.
  rewrite (H x (or_introl eq_refl)). apply IH. intros y Hy. apply H. now right.
Qed.

Lemma digit_not_white (c : ascii) (r : string) (d : Z) :
  digitIn 10 c = Some d -> whiteLength (String c r) = 0%nat.
Proof.
  intros H. unfold whiteLength. rewrite find_none; [reflexivity|].
  intros w Hw. vm_compute in Hw.
  repeat (destruct Hw as [<-|Hw];
          [rewrite startsWith_cons;
           destruct (ascii_dec _ c) as [<-|_];
           [vm_compute in H; discriminate H|reflexivity]|]).
  destruct Hw.
Qed.

Lemma stripLeft_digit (c : ascii) (r : string) (d : Z) :
  digitIn 10 c = Some d -> stripLeft (String c r) = String c r.
Proof.
  intros H. unfold stripLeft. cbn [String.length stripLeftLoop].
  now rewrite (digit_not_white c r d H).
Qed.

Lemma stripRight_digits (s : string) (acc n : Z) :
  digitsFrom 10 acc s = Some n -> stripRight s = s.
Proof.
  revert acc. induction s as [|c r IH]; intros acc; [reflexivity|].
  cbn [digitsFrom stripRight].
  destruct (digitIn 10 c) as [d|] eqn:E; [|discriminate]. intros H.
  unfold allWhite. rewrite (stripLeft_digit c r d E). cbn [String.eqb].
  now rewrite (IH _ H).
Qed.

Lemma trim_digits (s : string) (n : Z) :
  digitsFrom 10 0 s = Some n -> trim s = s.
Proof.
  intros H. unfold trim. destruct s as [|c r]; [reflexivity|].
  pose proof H as H'. cbn [digitsFrom] in H'.
  destruct (digitIn 10 c) as [d|] eqn:E; [|discriminate].
  rewrite (stripLeft_digit c r d E). exact (stripRight_digits _ _ _ H).
Qed.

Lemma spanDigits_digits (s : string) (acc n : Z) :
  digitsFrom 10 acc s = Some n -> spanDigits s = (s, EmptyString).
Proof.
  revert acc. induction s as [|c r IH]; intros acc; [reflexivity|].
  cbn [digitsFrom spanDigits].
  destruct (digitIn 10 c) as [d|] eqn:E; [|discriminate].
  intros H. now rewrite (IH _ H).
Qed.

Lemma digit_not_char (c x : ascii) (d : Z) :
  digitIn 10 c = Some d -> digitIn 10 x = None -> Ascii.eqb c x = false.
Proof.
  intros Hc Hx. apply Ascii.eqb_neq. intros ->. congruence.
Qed.

Lemma nonDecimalLiteral_digits (s : string) (acc n : Z) :
  digitsFrom 10 acc s = Some n -> nonDecimalLiteral s = None.
Proof.
  destruct s as [|z [|c r]]; [reflexivity|reflexivity|].
  cbn [digitsFrom]. destruct (digitIn 10 z) as [dz|]; [|discriminate].
  destruct (digitIn 10 c) as [d|] eqn:E; [|discriminate]. intros _.
  unfold nonDecimalLiteral.
  rewrite (digit_not_char c "x" d E eq_refl), (digit_not_char c "X" d E eq_refl),
    (digit_not_char c "o" d E eq_refl), (digit_not_char c "O" d E eq_refl),
    (digit_not_char c "b" d E eq_refl), (digit_not_char c "B" d E eq_refl).
  reflexivity.
Qed.

Lemma unsignedDecimal_digits (c : ascii) (r : string) (n : Z) :
  digitsFrom 10 0 (String c r) = Some n ->
  unsignedDecimal (String c r) = fromDecimal n 0.
Proof.
  intros H. pose proof H as H'. cbn [digitsFrom] in H'.
  destruct (digitIn 10 c) as [d|] eqn:E; [|discriminate].
  unfold unsignedDecimal.
  replace (String.eqb (String c r) "Infinity") with false
    by (cbn [String.eqb]; now rewrite (digit_not_char c "I" d E eq_refl)).
  rewrite (spanDigits_digits _ _ _ H). cbn [String.eqb andb exponentPart].
  rewrite sapp_nil_r, H. reflexivity.
Qed.

Lemma decimalLiteral_digits (c : ascii) (r : string) (n : Z) :
  digitsFrom 10 0 (String c r) = Some n ->
  decimalLiteral (String c r) = fromDecimal n 0.
Proof.
  intros H. pose proof H as H'. cbn [digitsFrom] in H'.
  destruct (digitIn 10 c) as [d|] eqn:E; [|discriminate].
  unfold decimalLiteral.
  rewrite (digit_not_char c "+" d E eq_refl), (digit_not_char c "-" d E eq_refl).
  now apply unsignedDecimal_digits.
Qed.

(** The number read from a text of decimal digits is the double nearest to
    its value. *)
Lemma Number_digits (k : string) (n : Z) :
  decimalValue k = Some n -> Number k = fromDecimal n 0.
Proof.
  unfold decimalValue. intros H. unfold Number.
  rewrite (trim_digits k n H). destruct k as [|c r].
  - injection H as <-. reflexivity.
  - rewrite (nonDecimalLiteral_digits _ _ _ H).
    now apply decimalLiteral_digits.
Qed.

(** Integers up to 2^53 are doubles. *)
Lemma roundRatio_exact (n : Z) :
  (0 < n <= 2 ^ 53)%Z -> roundRatio n 1 = Finite (n * 2 ^ 1074).
Proof.
  intros [Hpos Hle]. unfold roundRatio.
  change (Z.log2 1) with 0%Z. rewrite Z.sub_0_r.
  pose proof (Z.log2_nonneg n) as Hl0.
  destruct (Z.log2_spec n Hpos) as [Hlo Hhi].
  assert (Hl53 : (Z.log2 n <= 53)%Z).
  { rewrite <- (Z.log2_pow2 53) by lia. now apply Z.log2_le_mono. }
  set (l := Z.log2 n) in *.
  replace (0 <=? l)%Z with true by (symmetry; apply Z.leb_le; lia).
  replace (1 * 2 ^ l <=? n)%Z with true by (symmetry; apply Z.leb_le; lia).
  replace (Z.max (l - 52) (-1074)) with (l - 52)%Z by lia.
  destruct (Z.leb_spec 0 (l - 52)) as [Hk|Hk].
  - assert (Hl : l = 52%Z \/ l = 53%Z) by lia. destruct Hl as [-> | ->].
    + change (52 - 52)%Z with 0%Z. change (1 * 2 ^ 0)%Z with 1%Z.
      rewrite Z.div_1_r, Z.mod_1_r. change (2 * 0 <? 1)%Z with true.
      change (971 <? 0)%Z with false. change (0 =? 971)%Z with false.
      reflexivity.
    + assert (E : n = (2 ^ 53)%Z) by (change (2 ^ 53)%Z with (2 ^ 53)%Z in Hlo; lia).
      subst n. vm_compute. reflexivity.
  - rewrite Z.div_1_r, Z.mod_1_r.
    replace (971 <? l - 52)%Z with false by (symmetry; apply Z.ltb_ge; lia).
    replace (l - 52 =? 971)%Z with false by (symmetry; apply Z.eqb_neq; lia).
    cbn [andb]. change (2 * 0 <? 1)%Z with true. cbv iota.
    f_equal. rewrite <- Z.mul_assoc. f_equal.
    rewrite <- Z.pow_add_r by lia. f_equal. lia.
Qed.

Lemma Number_numeric (k : string) (n : Z) :
  decimalValue k = Some n -> (n <= maxSafe)%Z ->
  Number k = Finite (n * 2 ^ 1074).
Proof.
  intros H Hle. rewrite (Number_digits k n H). unfold fromDecimal.
  pose proof (digitsFrom_nonneg _ _ _ H (Z.le_refl 0)) as Hn.
  destruct (Z.eqb_spec n 0) as [-> |Hne]; [reflexivity|].
  cbn [Z.leb Z.compare]. change (10 ^ 0)%Z with 1%Z. rewrite Z.mul_1_r.
  apply roundRatio_exact. unfold maxSafe in Hle. lia.
Qed.

Lemma Number_numericKey (e : string * Topic) :
  isNumericKey (fst e) = true -> Number (fst e) = Finite (keyValue e * 2 ^ 1074).
Proof.
  unfold isNumericKey, keyValue.
  destruct (decimalValue (fst e)) as [n|] eqn:E; [|discriminate].
  intros H. apply Z.leb_le in H. now apply Number_numeric.
Qed.

Lemma compareKeys_numeric (a b : string * Topic) :
  isNumericKey (fst a) = true -> isNumericKey (fst b) = true ->
  (compareKeys a b <=? 0)%Z = (keyValue a <=? keyValue b)%Z.
Proof.
  intros Ha Hb. unfold compareKeys.
  rewrite (Number_numericKey a Ha), (Number_numericKey b Hb).
  rewrite subSign_leb by reflexivity. cbn [numLeb].
  assert (P : (0 < 2 ^ 1074)%Z) by (apply Z.pow_pos_nonneg; lia).
  destruct (Z.leb_spec (keyValue a) (keyValue b)) as [H|H].
  - apply Z.leb_le. now apply Z.mul_le_mono_nonneg_r; [lia|].
  - apply Z.leb_gt. now apply Z.mul_lt_mono_pos_r.
Qed.

Lemma topics_after_clicks (p : Page) (actions : list Action) :
  topics (fold_left click actions p) = topics p.
Proof.
  revert p. induction actions as [|a actions IH]; intros p; cbn; [reflexivity|].
  now rewrite IH.
Qed.

(** ** Rendering *)

Lemma sequenceR_imap_Ok {A B : Type} (f : nat -> A -> Result B) (g : nat -> A -> B)
  (l : list A) :
  (forall i x, f i x = Ok (g i x)) ->
  sequenceR (imap f l) = Ok (imap g l).
Proof.
  revert f g. induction l as [|x l IH]; intros f g H; cbn; [reflexivity|].
  rewrite H. cbn. rewrite (IH _ (g ∘ S)); [reflexivity|].
  intros i y. apply H.
Qed.

Lemma sequenceR_imap_labels {A B C : Type} (f : nat -> A -> Result B)
  (lab : B -> C) (h : A -> C) (l : list A) (vs : list B) :
  (forall i x v, f i x = Ok v -> lab v = h x) ->
  sequenceR (imap f l) = Ok vs -> map lab vs = map h l.
Proof.
  revert f vs. induction l as [|x l IH]; intros f vs H; cbn.
  - now intros [= <-].
  - destruct (f 0%nat x) as [v|e] eqn:E; cbn; [|discriminate].
    destruct (sequenceR (imap (f ∘ S) l)) as [t|e] eqn:Et; cbn; [|discriminate].
    intros [= <-]. cbn. rewrite (H _ _ _ E). f_equal.
    apply (IH (f ∘ S)); [|exact Et]. intros i y w. apply H.
Qed.

Lemma sequenceR_imap_Throw {A B : Type} (f : nat -> A -> Result B)
  (l : list A) (i : nat) (x : A) (e : JsError) :
  l !! i = Some x -> f i x = Throw e ->
  sequenceR (imap f l) = Throw TypeError.
Proof.
  revert f i. induction l as [|y l IH]; intros f i Hl Hf; [discriminate|].
  cbn. destruct i as [|i].
  - injection Hl as ->. rewrite Hf. now destruct e.
  - destruct (f 0%nat y) as [v|[]]; cbn; [|reflexivity].
    now rewrite (IH (f ∘ S) i Hl Hf).
Qed.

Lemma sequenceR_imap_Throw_inv {A B : Type} (f : nat -> A -> Result B)
  (l : list A) (e : JsError) :
  sequenceR (imap f l) = Throw e ->
  exists i x, l !! i = Some x /\ f i x = Throw e.
Proof.
  revert f. induction l as [|y l IH]; intros f; cbn; [discriminate|].
  destruct (f 0%nat y) as [v|e'] eqn:E; cbn.
  - destruct (sequenceR (imap (f ∘ S) l)) as [t|e'] eqn:Et; cbn; [discriminate|].
    intros [= ->]. destruct (IH _ Et) as (i & x & Hl & Hf).
    now exists (S i), x.
  - intros [= ->]. now exists 0%nat, y.
Qed.

(** An expanded topic without [subtypes] makes the first page throw. *)
Lemma TopicsPage_render_missing_subtypes (p : Page) (i : nat) (t : Topic) :
  topics p !! i = Some t -> subtypes t = None ->
  isOpen (expansion p) i = true ->
  TopicsPage.render p = Throw TypeError.
Proof.
  intros Hl Hn Ho. unfold TopicsPage.render.
  apply (sequenceR_imap_Throw _ _ i t TypeError Hl).
  unfold TopicsPage.renderTopic, TopicsPage.subtypesOf. now rewrite Ho, Hn.
Qed.

(** The first page renders when every expanded topic has the field. *)
Lemma TopicsPage_render_Ok (p : Page) :
  (forall i t, topics p !! i = Some t -> isOpen (expansion p) i = true ->
               subtypes t <> None) ->
  exists views, TopicsPage.render p = Ok views.
Proof.
  intros H. destruct (TopicsPage.render p) as [v|e] eqn:E; [now exists v|].
  apply sequenceR_imap_Throw_inv in E as (i & t & Hl & Hf). exfalso.
  unfold TopicsPage.renderTopic, TopicsPage.subtypesOf in Hf.
  destruct (isOpen _ i) eqn:Ho; [|discriminate].
  destruct (subtypes t) eqn:Hs; [discriminate|].
  now apply (H i t Hl Ho).
Qed.

Lemma TopicsPage_labels (p : Page) (views : list TopicView) :
  TopicsPage.render p = Ok views ->
  map tv_label views = map (fun t => Text (topic_type t)) (topics p).
Proof.
  intros Hr. eapply sequenceR_imap_labels; [|exact Hr].
  unfold TopicsPage.renderTopic. intros i x v.
  destruct (isOpen _ i); [|now intros [= <-]].
  destruct (TopicsPage.subtypesOf x); cbn; [now intros [= <-]|discriminate].
Qed.

(** The two later pages read a missing [subtypes] as the empty list and
    never throw. *)
Lemma PreviewPage_render_total (p : Page) :
  PreviewPage.render p
  = Ok (imap (fun tIdx topic =>
                {| tv_label := Text (topic_type topic);
                   tv_open := isOpen (expansion p) tIdx;
                   tv_body :=
                     if isOpen (expansion p) tIdx
                     then Some (renderSubtypes Text Preview (expansion p) tIdx
                                  (default [] (subtypes topic)))
                     else None |}) (topics p)).
Proof. unfold PreviewPage.render. now apply sequenceR_imap_Ok. Qed.

Lemma TitlesPage_render_total (p : Page) :
  TitlesPage.render p
  = Ok (imap (fun tIdx topic =>
                {| tv_label := TitlesPage.label (topic_type topic);
                   tv_open := isOpen (expansion p) tIdx;
                   tv_body :=
                     if isOpen (expansion p) tIdx
                     then Some (renderSubtypes TitlesPage.label Preview
                                  (expansion p) tIdx (default [] (subtypes topic)))
                     else None |}) (topics p)).
Proof. unfold TitlesPage.render. now apply sequenceR_imap_Ok. Qed.

Lemma renderSubtypes_empty (label : string -> Label) (item : string -> ExampleView)
  (st : ExpansionState) (tIdx : nat) (field : option (list Subtype)) :
  field = None \/ field = Some [] ->
  renderSubtypes label item st tIdx (default [] field) = NoSubtypes.
Proof. now intros [-> | ->]. Qed.

Lemma renderSubtype_no_examples (label : string -> Label)
  (item : string -> ExampleView) (st : ExpansionState) (tIdx sIdx : nat)
  (sub : Subtype) :
  examples sub = None \/ examples sub = Some [] ->
  subOpen st tIdx sIdx = true ->
  sv_body (renderSubtype label item st tIdx sIdx sub) = Some NoExamples.
Proof. unfold renderSubtype. now intros [-> | ->] ->. Qed.

(** C2: the first page (src/app/topics/page.tsx) on a topic without a
    [subtypes] field.  Once the topic is expanded, rendering reads
    [topic.subtypes.length] and throws a TypeError instead of showing the
    empty-state indicator; the two later pages show "No subtypes" for the
    same document. *)
Theorem TopicsPage_missing_subtypes_throws :
  TopicsPage.render (click (TopicsPage.mount bareDb) (ToggleTopic 0))
  = Throw TypeError
  /\ PreviewPage.render (PreviewPage.mount bareDb)
     = Ok [ {| tv_label := Text "Questions"; tv_open := true;
               tv_body := Some NoSubtypes |} ]
  /\ TitlesPage.render (TitlesPage.mount bareDb)
     = Ok [ {| tv_label := Formatted [Emphasis.Plain "Questions"];
               tv_open := true; tv_body := Some NoSubtypes |} ].
Proof. repeat split; reflexivity. Qed.

(** C4, counterexample: a document whose two keys are the decimal numbers
    9007199254740993 and 9007199254740992, enumerated in this order (neither
    is an array index).  [Number] rounds both to the double 2^53, the
    comparator returns 0 and the stable sort leaves them as they are: the
    topic of the larger key is displayed first. *)
Lemma big_keys_displayed_out_of_order :
  enumerationOrder bigDb = true
  /\ map (fun e => decimalValue (fst e)) bigDb
     = [Some 9007199254740993%Z; Some 9007199254740992%Z]
  /\ map (fun e => Number (fst e)) bigDb
     = [Finite (2 ^ 53 * 2 ^ 1074); Finite (2 ^ 53 * 2 ^ 1074)]
  /\ map topic_type (sortedTopics bigDb) = ["later"; "earlier"]
  /\ map topic_type (topics (click (TitlesPage.mount bigDb) (ToggleTopic 0)))
     = ["later"; "earlier"]
  /\ ~ StronglySorted (fun a b => (keyValue a <= keyValue b)%Z)
         (sortedEntries bigDb).
Proof.
  split; [vm_compute; reflexivity|].
  split; [vm_compute; reflexivity|].
  split; [vm_compute; reflexivity|].
  split; [vm_compute; reflexivity|].
  split; [vm_compute; reflexivity|].
  replace (sortedEntries bigDb) with bigDb by (vm_compute; reflexivity).
  intros H. apply StronglySorted_inv in H as [_ H].
  apply Forall_inv in H. vm_compute in H. now apply H.
Qed.

(** C4: the entries behind the displayed topics are the entries of the
    document rearranged.  When no key of the document reads as [NaN], they
    are in ascending order of the doubles that [Number] gives for the keys,
    and the entries whose keys give the same double keep the order of the
    document; when every key reads as [NaN], the order of the document is
    kept.  When every key is a decimal number of value at most 2^53, the
    doubles are the exact values and the order is the ascending order of the
    key values (the only such arrangement when the values are pairwise
    distinct).  For every document, every page memoises this sequence at
    mount and no sequence of toggles changes it; the later pages render one
    row per topic in this order; the first page does so at mount and
    whenever no expanded topic lacks its [subtypes] field, and in no other
    order whenever its rendering returns. *)
Theorem displayed_topics_in_key_order (db : Database) :
  Permutation (sortedEntries db) db
  /\ (Forall (fun e => isNaN (Number (fst e)) = false) db ->
      StronglySorted (fun a b => keyLeb a b = true) (sortedEntries db)
      /\ (forall x : JSNumber,
            List.filter (keyIs x) (sortedEntries db) = List.filter (keyIs x) db))
  /\ (Forall (fun e => isNaN (Number (fst e)) = true) db ->
      sortedEntries db = db)
  /\ (Forall (fun e => isNumericKey (fst e) = true) db ->
      Forall (fun e => Number (fst e) = Finite (keyValue e * 2 ^ 1074)) db
      /\ StronglySorted (fun a b => (keyValue a <= keyValue b)%Z)
           (sortedEntries db)
      /\ (List.NoDup (map keyValue db) ->
          forall arranged : Database,
            Permutation arranged db ->
            StronglySorted (fun a b => (keyValue a <= keyValue b)%Z) arranged ->
            arranged = sortedEntries db))
  /\ (forall actions : list Action,
        let shown := map snd (sortedEntries db) in
        let first := fold_left click actions (TopicsPage.mount db) in
        topics first = shown
        /\ topics (fold_left click actions (PreviewPage.mount db)) = shown
        /\ topics (fold_left click actions (TitlesPage.mount db)) = shown
        /\ (exists views,
              PreviewPage.render (fold_left click actions (PreviewPage.mount db))
              = Ok views
              /\ map tv_label views = map (fun t => Text (topic_type t)) shown)
        /\ (exists views,
              TitlesPage.render (fold_left click actions (TitlesPage.mount db))
              = Ok views
              /\ map tv_label views
                 = map (fun t => TitlesPage.label (topic_type t)) shown)
        /\ (forall views,
              TopicsPage.render first = Ok views ->
              map tv_label views = map (fun t => Text (topic_type t)) shown)
        /\ ((forall i t, shown !! i = Some t ->
                         isOpen (expansion first) i = true ->
                         subtypes t <> None) ->
            exists views,
              TopicsPage.render first = Ok views
              /\ map tv_label views = map (fun t => Text (topic_type t)) shown))
  /\ (exists views,
        TopicsPage.render (TopicsPage.mount db) = Ok views
        /\ map tv_label views
           = map (fun t => Text (topic_type t)) (map snd (sortedEntries db))).
Proof.
  split; [apply sortBy_perm|]. split; [|split; [|split; [|split]]].
  - intros Hnum. split.
    + apply (sortBy_sorted_leb compareKeys keyLeb
               (fun e => isNaN (Number (fst e)) = false)); [| | |exact Hnum].
      * intros a b. apply subSign_leb.
      * intros a b c _ _ _. apply numLeb_trans.
      * intros a b. apply numLeb_total.
    + intros x.
      apply (sortBy_filter_leb compareKeys keyLeb
               (fun e => isNaN (Number (fst e)) = false)); [| |exact Hnum].
      * intros a b. apply subSign_leb.
      * intros a b _ _. unfold keyIs, numEqb, keyLeb.
        intros Ha Hb. apply andb_true_iff in Ha as [Ha _].
        apply andb_true_iff in Hb as [_ Hb].
        exact (numLeb_trans _ _ _ Ha Hb).
  - intros Hnan.
    apply (sortBy_sorted_id_leb compareKeys (fun _ _ => true)
             (fun e => isNaN (Number (fst e)) = true)); [|exact Hnan|].
    + intros a b Ha Hb. unfold compareKeys.
      destruct (Number (fst a)); try discriminate Ha.
      destruct (Number (fst b)); try discriminate Hb. reflexivity.
    + clear Hnan. induction db as [|e db IH]; constructor; [exact IH|].
      apply List.Forall_forall. reflexivity.
  - intros Hkeys.
    assert (Hsorted : StronglySorted (fun a b => (keyValue a <= keyValue b)%Z)
                        (sortedEntries db)).
    { apply (sortBy_sorted compareKeys keyValue
               (fun e => isNumericKey (fst e) = true)); [|exact Hkeys].
      intros a b. apply compareKeys_numeric. }
    split; [|split; [exact Hsorted|]].
    { eapply Forall_impl; [exact Hkeys|]. intros e. apply Number_numericKey. }
    intros Hnd arranged Hp Hs.
    apply (sorted_perm_unique keyValue); [| |exact Hs|exact Hsorted].
    + eapply Permutation_NoDup; [|exact Hnd].
      apply Permutation_map. now symmetry.
    + rewrite Hp. symmetry. apply sortBy_perm.
  - intros actions shown first.
    assert (T1 : topics first = shown)
      by (unfold first; now rewrite topics_after_clicks).
    assert (T2 : topics (fold_left click actions (PreviewPage.mount db)) = shown)
      by now rewrite topics_after_clicks.
    assert (T3 : topics (fold_left click actions (TitlesPage.mount db)) = shown)
      by now rewrite topics_after_clicks.
    split; [exact T1|]. split; [exact T2|]. split; [exact T3|].
    split; [|split; [|split]].
    + eexists. split; [apply PreviewPage_render_total|].
      rewrite <- T2.
      eapply sequenceR_imap_labels; [|apply PreviewPage_render_total].
      unfold PreviewPage.renderTopic. now intros i x v [= <-].
    + eexists. split; [apply TitlesPage_render_total|].
      rewrite <- T3.
      eapply sequenceR_imap_labels; [|apply TitlesPage_render_total].
      unfold TitlesPage.renderTopic. now intros i x v [= <-].
    + intros views Hr. rewrite <- T1. now apply TopicsPage_labels.
    + intros Hall. destruct (TopicsPage_render_Ok first) as [views Hv].
      { rewrite T1. exact Hall. }
      exists views. split; [exact Hv|]. rewrite <- T1.
      now apply TopicsPage_labels.
  - destruct (TopicsPage_render_Ok (TopicsPage.mount db)) as [views Hv].
    { intros i t _ Ho. discriminate Ho. }
    exists views. split; [exact Hv|].
    now apply (TopicsPage_labels (TopicsPage.mount db)).
Qed.

Lemma displayed_topics_in_key_order_witness :
  enumerationOrder sampleDb = true
  /\ Forall (fun e => isNumericKey (fst e) = true) sampleDb
  /\ StronglySorted (fun a b => (keyValue a <= keyValue b)%Z)
       (sortedEntries sampleDb)
  /\ map fst (sortedEntries sampleDb) = ["01"; "2"; "10"]
  /\ map topic_type (topics (click (TitlesPage.mount sampleDb) (ToggleTopic 1)))
     = ["Questions"; "Lists"; "Curiosity *gap*"]
  /\ Forall (fun e => isNaN (Number (fst e)) = false) mixedDb
  /\ StronglySorted (fun a b => keyLeb a b = true) (sortedEntries mixedDb)
  /\ map fst (sortedEntries mixedDb) = ["-1"; "1.5"; " 7"; "1e3"].
Proof.
  assert (K : Forall (fun e => isNumericKey (fst e) = true) sampleDb)
    by (repeat (constructor; [vm_compute; reflexivity|]); constructor).
  assert (N : Forall (fun e => isNaN (Number (fst e)) = false) mixedDb)
    by (repeat (constructor; [vm_compute; reflexivity|]); constructor).
  destruct (displayed_topics_in_key_order sampleDb) as (_ & _ & _ & B & R & _).
  destruct (B K) as (_ & S & _).
  destruct (displayed_topics_in_key_order mixedDb) as (_ & A & _).
  destruct (A N) as (S' & _).
  split; [vm_compute; reflexivity|].
  split; [exact K|]. split; [exact S|].
  split; [vm_compute; reflexivity|].
  split.
  { destruct (R [ToggleTopic 1]) as (_ & _ & T & _).
    cbn [fold_left] in T. rewrite T. vm_compute. reflexivity. }
  split; [exact N|]. split; [exact S'|].
  vm_compute. reflexivity.
Defined.

(** ** Link preview *)

Section PreviewFacts.
Import VideoPreview.

Lemma lookup_cancelled (url : string) (o : FetchOutcome) (i : Instance) :
  cancelled i = true -> lookup url o i = (Fulfilled tt, i).
Proof.
  intros Hc. unfold lookup, then_, catch_, fetch, resJson, resolve, reject.
  destruct o as [|[k [j|]]]; cbn; try destruct k; cbn;
    unfold onJson, onError; rewrite ?Hc; reflexivity.
Qed.

Lemma lookup_failure (url : string) (o : FetchOutcome) (i : Instance) :
  lookupFails o = true -> cancelled i = false ->
  lookup url o i
  = (Fulfilled tt,
     {| title := title i; thumb := thumb i; failed := true;
        cancelled := false |}).
Proof.
  intros Hf Hc. unfold lookup, then_, catch_, fetch, resJson, resolve, reject.
  destruct o as [|[k [j|]]]; cbn in *; try destruct k; cbn in *;
    try discriminate Hf; unfold onError; rewrite Hc; reflexivity.
Qed.

Lemma lookup_success (url : string) (t th : option string) (i : Instance) :
  cancelled i = false ->
  lookup url (success t th) i
  = (Fulfilled tt,
     {| title := Some (titleOr t url); thumb := thumbOrNull th;
        failed := failed i; cancelled := false |}).
Proof.
  intros Hc. unfold lookup, then_, catch_, success, onJson. cbn.
  rewrite Hc. reflexivity.
Qed.

(** C6: the promise of the effect is always fulfilled, so nothing is left
    unhandled; and when the lookup fails (network error, status that is not
    a success, body that is no JSON) while the component is still
    interested, the [failed] flag is set, the result is [Failed], title and
    thumbnail are untouched, and both pages show the fallback for the
    url. *)
Theorem failed_lookup_falls_back :
  (forall (url : string) (o : FetchOutcome) (i : Instance),
      fst (lookup url o i) = Fulfilled tt)
  /\ (forall (url : string) (o : FetchOutcome) (i : Instance),
        lookupFails o = true -> cancelled i = false ->
        let i' := complete url o i in
        failed i' = true
        /\ resultOf i' = Failed
        /\ title i' = title i /\ thumb i' = thumb i
        /\ render url i' = PlainLink url
        /\ (forall hostnameOf, renderCompact hostnameOf url i' = NoPreviewCard url)
        /\ isFallback url (render url i') = true).
Proof.
  split.
  - intros url o [ti thi fi [|]]; destruct o as [|[[|] [[|t th]|]]]; reflexivity.
  - intros url o i Hf Hc i'. subst i'. unfold complete.
    rewrite (lookup_failure url o i Hf Hc). cbn.
    repeat split; try reflexivity. apply String.eqb_refl.
Qed.

Lemma failed_lookup_falls_back_witness :
  lookupFails (Responded {| ok := false; json := None |}) = true
  /\ cancelled mounted = false
  /\ render "https://youtu.be/a"
       (complete "https://youtu.be/a" (Responded {| ok := false; json := None |})
          mounted)
     = PlainLink "https://youtu.be/a".
Proof.
  split; [reflexivity|]. split; [reflexivity|].
  destruct (proj2 failed_lookup_falls_back "https://youtu.be/a"
              (Responded {| ok := false; json := None |}) mounted
              eq_refl eq_refl) as (_ & _ & _ & _ & R & _).
  exact R.
Defined.

(** C7: once the cleanup of the effect has run, the completion of the
    lookup, whatever its outcome, leaves title, thumbnail and the failed
    flag as they were; the component renders as before. *)
Theorem completion_after_cleanup_is_discarded
  (url : string) (o : FetchOutcome) (i : Instance) :
  let i' := complete url o (cleanup i) in
  title i' = title i /\ thumb i' = thumb i /\ failed i' = failed i
  /\ i' = cleanup i
  /\ render url i' = render url i
  /\ (forall hostnameOf,
        renderCompact hostnameOf url i' = renderCompact hostnameOf url i).
Proof.
  intros i'. subst i'. unfold complete.
  rewrite (lookup_cancelled url o (cleanup i) eq_refl). cbn.
  repeat split; reflexivity.
Qed.

(** C9, as stated for a body whose [title] is the empty string: the result
    is not resolved with that field; the url is kept as the title. *)
Lemma empty_title_not_extracted :
  resultOf (complete "https://youtu.be/a" (success (Some "") None) mounted)
  <> specResolved "https://youtu.be/a" (Some "") None.
Proof. intros H. vm_compute in H. discriminate H. Qed.

(** C9, amended: a successful lookup (success status, JSON body that is not
    null) of a component that is still interested stores the title, the
    [title] field when that is present and not empty and the url otherwise,
    and the thumbnail, the [thumbnail_url] field when that is present and
    not empty and none otherwise.  The failure flag is left as it was: the
    result is resolved with that title and thumbnail unless an earlier
    lookup of the same component had failed, and then it stays failed.  For
    a component that has just been mounted the result is resolved. *)
Theorem successful_lookup_resolves
  (url : string) (t th : option string) (i : Instance) :
  cancelled i = false ->
  let i' := complete url (success t th) i in
  let newTitle := match t with
                  | Some s => if String.eqb s "" then url else s
                  | None => url
                  end in
  let newThumb := match th with
                  | Some s => if String.eqb s "" then None else Some s
                  | None => None
                  end in
  fst (lookup url (success t th) i) = Fulfilled tt
  /\ title i' = Some newTitle
  /\ thumb i' = newThumb
  /\ failed i' = failed i
  /\ cancelled i' = false
  /\ resultOf i' = (if failed i then Failed else Resolved newTitle newThumb)
  /\ resultOf (complete url (success t th) mounted) = Resolved newTitle newThumb.
Proof.
  intros Hc i' newTitle newThumb. subst i' newTitle newThumb. unfold complete.
  rewrite (lookup_success url t th i Hc).
  rewrite (lookup_success url t th mounted eq_refl).
  unfold resultOf. cbn [fst snd title thumb failed cancelled mounted].
  destruct (failed i);
    destruct t as [[|c s]|], th as [[|c' s']|]; repeat split; exact Hc.
Qed.

Lemma successful_lookup_resolves_witness :
  let again := {| title := None; thumb := None; failed := true;
                  cancelled := false |} in
  cancelled mounted = false /\ cancelled again = false
  /\ resultOf (complete "https://youtu.be/a"
                 (success (Some "A title") (Some "https://img/a.jpg")) mounted)
     = Resolved "A title" (Some "https://img/a.jpg")
  /\ title (complete "https://youtu.be/a"
              (success (Some "A title") (Some "https://img/a.jpg")) again)
     = Some "A title"
  /\ resultOf (complete "https://youtu.be/a"
                 (success (Some "A title") (Some "https://img/a.jpg")) again)
     = Failed.
Proof.
  intros again.
  destruct (successful_lookup_resolves "https://youtu.be/a"
              (Some "A title") (Some "https://img/a.jpg") mounted eq_refl)
    as (_ & _ & _ & _ & _ & R & _).
  destruct (successful_lookup_resolves "https://youtu.be/a"
              (Some "A title") (Some "https://img/a.jpg") again eq_refl)
    as (_ & T & _ & _ & _ & R' & _).
  split; [reflexivity|]. split; [reflexivity|].
  split; [exact R|]. split; [exact T|exact R'].
Defined.

End PreviewFacts.

(** ** Host router *)

Lemma startsWith_split (p s : string) :
  startsWith s p = true -> exists r, s = p +:+ r.
Proof.
  revert s. induction p as [|c p IH]; intros s.
  - intros _. now exists s.
  - destruct s as [|d s]; [intros [=]|].
    rewrite startsWith_cons. destruct (ascii_dec c d) as [<-|]; [|intros [=]].
    intros H. destruct (IH _ H) as [r ->]. now exists r.
Qed.

(** The test [hostname.startsWith(label + ".")] holds exactly when the text
    in front of the first dot is the label. *)
Lemma startsWith_label (l hn : string) :
  containsChar "." l = false ->
  startsWith hn (l +:+ ".") = true
  <-> containsChar "." hn = true /\ beforeChar "." hn = l.
Proof.
  revert hn. induction l as [|c l IH]; intros hn Hl.
  - rewrite sapp_nil_l. destruct hn as [|d r]; [now split; [intros [=]|intros [[=] _]]|].
    rewrite startsWith_cons, startsWith_nil. cbn [containsChar beforeChar].
    destruct (ascii_dec "." d) as [<-|N].
    + now rewrite Ascii.eqb_refl.
    + assert (E : Ascii.eqb d "." = false) by (apply Ascii.eqb_neq; congruence).
      rewrite E. split; [intros [=]|intros [_ [=]]].
  - cbn [containsChar] in Hl. apply orb_false_elim in Hl as [Hc Hl].
    rewrite sapp_cons.
    destruct hn as [|d r]; [now split; [intros [=]|intros [[=] _]]|].
    rewrite startsWith_cons. cbn [containsChar beforeChar].
    destruct (ascii_dec c d) as [<-|N].
    + rewrite Hc. cbn [orb]. rewrite (IH r Hl).
      split; [now intros [? ->]|]. intros [? [= ->]]. now split.
    + split; [intros [=]|]. intros [_ E]. destruct (Ascii.eqb d "."); [discriminate E|].
      injection E as E _. congruence.
Qed.

Lemma startsWith_beforeColon (p h : string) :
  containsChar ":" p = false ->
  startsWith (beforeChar ":" h) p = startsWith h p.
Proof.
  revert h. induction p as [|c p IH]; intros h Hp.
  - now rewrite !startsWith_nil.
  - cbn [containsChar] in Hp. apply orb_false_elim in Hp as [Hc Hp].
    destruct h as [|d r]; [reflexivity|]. cbn [beforeChar].
    destruct (Ascii.eqb d ":") eqn:E.
    + apply Ascii.eqb_eq in E as ->. rewrite startsWith_cons.
      destruct (ascii_dec c ":") as [->|]; [|reflexivity].
      now rewrite Ascii.eqb_refl in Hc.
    + rewrite !startsWith_cons. destruct (ascii_dec c d); [now apply IH|reflexivity].
Qed.

Lemma hostname_label (l h : string) :
  containsChar "." l = false ->
  startsWith (beforeChar ":" h) (l +:+ ".") = true <-> leadingLabel h = Some l.
Proof.
  intros Hl. rewrite (startsWith_label l _ Hl). unfold leadingLabel.
  destruct (containsChar "." (beforeChar ":" h)).
  - split; [now intros [_ ->]|]. now intros [= ->].
  - split; [now intros [[=] _]|intros [=]].
Qed.

Lemma titles_label (h : string) :
  startsWith (beforeChar ":" h) "titles." = true <-> leadingLabel h = Some "titles".
Proof. apply (hostname_label "titles" h). reflexivity. Qed.

Lemma topics_label (h : string) :
  startsWith (beforeChar ":" h) "topics." = true <-> leadingLabel h = Some "topics".
Proof. apply (hostname_label "topics" h). reflexivity. Qed.

Lemma titles_label_host (h : string) :
  startsWith h "titles." = true <-> leadingLabel h = Some "titles".
Proof.
  rewrite <- titles_label. now rewrite (startsWith_beforeColon "titles." h).
Qed.

Lemma not_true_false (b : bool) : b <> true -> b = false.
Proof. now destruct b. Qed.

Lemma startsWith_sapp (p r : string) : startsWith (p +:+ r) p = true.
Proof.
  induction p as [|c p IH]; [apply startsWith_nil|].
  rewrite sapp_cons, startsWith_cons. now destruct (ascii_dec c c).
Qed.

Lemma SubpathRouter_excluded (p : string) :
  startsWith p "/_next/static" = true \/ startsWith p "/_next/image" = true
  \/ startsWith p "/favicon.ico" = true ->
  SubpathRouter.matcher p = false.
Proof.
  intros [H|[H|H]]; apply startsWith_split in H as [r ->].
  - change ("/_next/static" +:+ r) with (String "/" ("_next/static" +:+ r)).
    unfold SubpathRouter.matcher. cbv iota.
    now rewrite (startsWith_sapp "_next/static" r).
  - change ("/_next/image" +:+ r) with (String "/" ("_next/image" +:+ r)).
    unfold SubpathRouter.matcher. cbv iota.
    rewrite (startsWith_sapp "_next/image" r). now rewrite orb_true_r.
  - change ("/favicon.ico" +:+ r) with (String "/" ("favicon.ico" +:+ r)).
    unfold SubpathRouter.matcher. cbv iota.
    replace (SubpathRouter.faviconIco ("favicon.ico" +:+ r)) with true.
    + now rewrite !orb_true_r.
    + unfold SubpathRouter.faviconIco.
      replace (String.length ("favicon.ico" +:+ r) - 8)%nat
        with (3 + String.length r)%nat by (rewrite length_sapp; cbn; lia).
      change (String.substring 7 1 ("favicon.ico" +:+ r)) with ".".
      change (String.substring 8 (3 + String.length r) ("favicon.ico" +:+ r))
        with ("ico" +:+ String.substring 0 (String.length r) r).
      change ("favicon.ico" +:+ r) with ("favicon" +:+ (".ico" +:+ r)).
      now rewrite !startsWith_sapp.
Qed.

(** C3, as stated for the router that keeps sub-paths: on the titles host
    a path under /public/ and a framework path outside /_next/static and
    /_next/image do not pass through; they are rewritten under /titles. *)
Lemma SubpathRouter_rewrites_public :
  SubpathRouter.route
    {| host := Some "titles.example.com"; pathname := "/public/logo.png" |}
  <> Next
  /\ SubpathRouter.route
       {| host := Some "titles.example.com"; pathname := "/_next/data/x.json" |}
     <> Next.
Proof. split; intros H; vm_compute in H; discriminate H. Qed.

(** C3, amended.  When the leading label of the host is the configured one
    and the path is "/", each router rewrites to its fixed target page; when
    the label is another one (or there is none), each router passes the
    request through for any path.  The two routers that drop the sub-path
    pass every path starting with /_next, the path /favicon.ico and every
    path under /public/ through for any host.  The router that keeps
    sub-paths passes through, for any host, the paths its matcher excludes
    (those starting with /_next/static, /_next/image or /favicon.ico); on
    its host it rewrites every other path [p] outside /titles, paths under
    /public/ and other /_next paths included, to /titles followed by [p]. *)
Theorem host_router_rules :
  (forall h : string, leadingLabel h = Some "titles" ->
      TitlesRouter.route {| host := Some h; pathname := "/" |} = Rewrite "/titles"
      /\ SubpathRouter.route {| host := Some h; pathname := "/" |}
         = Rewrite "/titles")
  /\ (forall h : string, leadingLabel h = Some "topics" ->
        TopicsRouter.route {| host := Some h; pathname := "/" |}
        = Rewrite "/topics")
  /\ (forall req : Request, leadingLabel (hostHeader req) <> Some "titles" ->
        TitlesRouter.route req = Next /\ SubpathRouter.route req = Next)
  /\ (forall req : Request, leadingLabel (hostHeader req) <> Some "topics" ->
        TopicsRouter.route req = Next)
  /\ (forall req : Request,
        startsWith (pathname req) "/_next" = true
        \/ pathname req = "/favicon.ico"
        \/ startsWith (pathname req) "/public/" = true ->
        TitlesRouter.route req = Next /\ TopicsRouter.route req = Next)
  /\ (forall req : Request,
        startsWith (pathname req) "/_next/static" = true
        \/ startsWith (pathname req) "/_next/image" = true
        \/ startsWith (pathname req) "/favicon.ico" = true ->
        SubpathRouter.route req = Next)
  /\ (forall req : Request,
        leadingLabel (hostHeader req) = Some "titles" ->
        SubpathRouter.matcher (pathname req) = true ->
        pathname req <> "/" ->
        startsWith (pathname req) "/titles" = false ->
        SubpathRouter.route req = Rewrite ("/titles" +:+ pathname req)).
Proof.
  repeat apply conj.
  - intros h Hl. split.
    + apply titles_label in Hl.
      unfold TitlesRouter.route, TitlesRouter.middleware, hostHeader.
      cbn [host pathname TitlesRouter.matcher].
      change (default "" (Some h)) with h. rewrite Hl. reflexivity.
    + apply titles_label_host in Hl.
      unfold SubpathRouter.route, SubpathRouter.middleware, hostHeader.
      cbn [host pathname].
      change (default "" (Some h)) with h. rewrite Hl. reflexivity.
  - intros h Hl. apply topics_label in Hl.
    unfold TopicsRouter.route, TopicsRouter.middleware, hostHeader.
    cbn [host pathname TopicsRouter.matcher].
    change (default "" (Some h)) with h. rewrite Hl. reflexivity.
  - intros req Hn. split.
    + unfold TitlesRouter.route, TitlesRouter.middleware, TitlesRouter.matcher.
      now rewrite (not_true_false _ (fun E => Hn (proj1 (titles_label _) E))).
    + unfold SubpathRouter.route, SubpathRouter.middleware.
      rewrite (not_true_false _ (fun E => Hn (proj1 (titles_label_host _) E))).
      now destruct (SubpathRouter.matcher _).
  - intros req Hn.
    unfold TopicsRouter.route, TopicsRouter.middleware, TopicsRouter.matcher.
    now rewrite (not_true_false _ (fun E => Hn (proj1 (topics_label _) E))).
  - intros req Hp.
    assert (E : startsWith (pathname req) "/_next"
                || String.eqb (pathname req) "/favicon.ico"
                || startsWith (pathname req) "/public/" = true).
    { destruct Hp as [->|[->| ->]]; [reflexivity| |now rewrite orb_true_r].
      now rewrite orb_true_r. }
    split.
    + unfold TitlesRouter.route, TitlesRouter.middleware, TitlesRouter.matcher.
      rewrite E. now destruct (startsWith _ "titles.").
    + unfold TopicsRouter.route, TopicsRouter.middleware, TopicsRouter.matcher.
      rewrite E. now destruct (startsWith _ "topics.").
  - intros req Hp. unfold SubpathRouter.route.
    now rewrite (SubpathRouter_excluded _ Hp).
  - intros req Hl Hm Hroot Hsub.
    unfold SubpathRouter.route, SubpathRouter.middleware. rewrite Hm.
    apply titles_label_host in Hl. rewrite Hl, Hsub.
    destruct (String.eqb_spec (pathname req) "/") as [E|_]; [contradiction|].
    destruct (String.eqb_spec (pathname req) "") as [E|_]; [|reflexivity].
    rewrite E in Hm. discriminate Hm.
Qed.

Lemma host_router_rules_witness :
  leadingLabel "titles.example.com:3000" = Some "titles"
  /\ TitlesRouter.route
       {| host := Some "titles.example.com:3000"; pathname := "/" |}
     = Rewrite "/titles"
  /\ leadingLabel (hostHeader {| host := Some "example.com";
                                 pathname := "/anything" |}) <> Some "titles"
  /\ TitlesRouter.route {| host := Some "example.com"; pathname := "/anything" |}
     = Next.
Proof.
  assert (L : leadingLabel "titles.example.com:3000" = Some "titles")
    by reflexivity.
  assert (N : leadingLabel (hostHeader {| host := Some "example.com";
                                          pathname := "/anything" |})
              <> Some "titles") by discriminate.
  split; [exact L|]. split.
  - exact (proj1 (proj1 host_router_rules _ L)).
  - split; [exact N|].
    exact (proj1 (proj1 (proj2 (proj2 host_router_rules)) _ N)).
Defined.

(** * Further properties of the code *)

(** ** Host routers *)

Lemma beforeChar_id (c : ascii) (h : string) :
  containsChar c h = false -> beforeChar c h = h.
Proof.
  induction h as [|d h IH]; [reflexivity|]. cbn [containsChar beforeChar].
  intros [Hd Hh]%orb_false_elim. rewrite Hd. now rewrite (IH Hh).
Qed.

Lemma beforeChar_sapp (c : ascii) (h r : string) :
  containsChar c h = false -> beforeChar c (h +:+ String c r) = h.
Proof.
  induction h as [|d h IH].
  - intros _. rewrite sapp_nil_l. cbn [beforeChar]. now rewrite Ascii.eqb_refl.
  - cbn [containsChar]. intros [Hd Hh]%orb_false_elim.
    rewrite sapp_cons. cbn [beforeChar]. rewrite Hd. now rewrite (IH Hh).
Qed.

Lemma TitlesRouter_route_cases (req : Request) :
  TitlesRouter.route req
  = if startsWith (beforeChar ":" (hostHeader req)) "titles." then
      if isAssetPath (pathname req) then Next
      else if String.eqb (pathname req) "/titles" then Next
           else Rewrite "/titles"
    else Next.
Proof.
  unfold TitlesRouter.route, TitlesRouter.middleware, TitlesRouter.matcher,
    isAssetPath.
  destruct (startsWith _ "titles."); [|reflexivity].
  destruct (_ || _ || _); [reflexivity|].
  now destruct (String.eqb (pathname req) "/titles").
Qed.

Lemma TopicsRouter_route_cases (req : Request) :
  TopicsRouter.route req
  = if startsWith (beforeChar ":" (hostHeader req)) "topics." then
      if isAssetPath (pathname req) then Next
      else if String.eqb (pathname req) "/topics" then Next
           else Rewrite "/topics"
    else Next.
Proof.
  unfold TopicsRouter.route, TopicsRouter.middleware, TopicsRouter.matcher,
    isAssetPath.
  destruct (startsWith _ "topics."); [|reflexivity].
  destruct (_ || _ || _); [reflexivity|].
  now destruct (String.eqb (pathname req) "/topics").
Qed.

Lemma label_dec (h l : string) :
  containsChar "." l = false ->
  startsWith (beforeChar ":" h) (l +:+ ".") = false -> leadingLabel h <> Some l.
Proof.
  intros Hl Hf E. apply (hostname_label l h Hl) in E. congruence.
Qed.

(** X1: the router of src/middleware.ts rewrites exactly the requests of the
    titles host whose path is neither let through as an asset nor the target
    itself, and always to the bare target: the sub-path is dropped. *)
Theorem TitlesRouter_rewrite_iff (req : Request) (target : string) :
  TitlesRouter.route req = Rewrite target
  <-> target = "/titles"
      /\ leadingLabel (hostHeader req) = Some "titles"
      /\ isAssetPath (pathname req) = false
      /\ pathname req <> "/titles".
Proof.
  rewrite TitlesRouter_route_cases.
  destruct (startsWith _ "titles.") eqn:Hh.
  - apply titles_label in Hh.
    destruct (isAssetPath (pathname req)).
    + split; [discriminate|]. now intros (_ & _ & [=] & _).
    + destruct (String.eqb_spec (pathname req) "/titles") as [E|N].
      * split; [discriminate|]. now intros (_ & _ & _ & ?).
      * split; [now intros [= <-]|]. now intros (-> & _).
  - split; [discriminate|]. intros (_ & E & _).
    destruct (label_dec _ "titles" eq_refl Hh E).
Qed.

(** X2: the same for the topics router (first file of src/unnamed/part_001). *)
Theorem TopicsRouter_rewrite_iff (req : Request) (target : string) :
  TopicsRouter.route req = Rewrite target
  <-> target = "/topics"
      /\ leadingLabel (hostHeader req) = Some "topics"
      /\ isAssetPath (pathname req) = false
      /\ pathname req <> "/topics".
Proof.
  rewrite TopicsRouter_route_cases.
  destruct (startsWith _ "topics.") eqn:Hh.
  - apply topics_label in Hh.
    destruct (isAssetPath (pathname req)).
    + split; [discriminate|]. now intros (_ & _ & [=] & _).
    + destruct (String.eqb_spec (pathname req) "/topics") as [E|N].
      * split; [discriminate|]. now intros (_ & _ & _ & ?).
      * split; [now intros [= <-]|]. now intros (-> & _).
  - split; [discriminate|]. intros (_ & E & _).
    destruct (label_dec _ "topics" eq_refl Hh E).
Qed.

Lemma SubpathRouter_route_cases (req : Request) :
  SubpathRouter.route req
  = if SubpathRouter.matcher (pathname req) then
      if startsWith (hostHeader req) "titles." then
        if String.eqb (pathname req) "/" then Rewrite "/titles"
        else if startsWith (pathname req) "/titles" then Next
             else Rewrite ("/titles" +:+ pathname req)
      else Next
    else Next.
Proof.
  unfold SubpathRouter.route, SubpathRouter.middleware.
  destruct (SubpathRouter.matcher (pathname req)) eqn:Hm; [|reflexivity].
  destruct (startsWith _ "titles."); [|reflexivity].
  destruct (String.eqb (pathname req) "/"); [reflexivity|].
  destruct (String.eqb_spec (pathname req) "") as [E|_].
  - rewrite E in Hm. discriminate Hm.
  - cbn [orb]. now destruct (startsWith (pathname req) "/titles").
Qed.

(** X3: the router that keeps sub-paths rewrites exactly the requests of the
    titles host whose path passes the matcher and does not start with
    /titles; the root goes to /titles and any other path [p] to /titles
    followed by [p]. *)
Theorem SubpathRouter_rewrite_iff (req : Request) (target : string) :
  SubpathRouter.route req = Rewrite target
  <-> leadingLabel (hostHeader req) = Some "titles"
      /\ SubpathRouter.matcher (pathname req) = true
      /\ startsWith (pathname req) "/titles" = false
      /\ target = (if String.eqb (pathname req) "/" then "/titles"
                   else "/titles" +:+ pathname req).
Proof.
  rewrite SubpathRouter_route_cases.
  destruct (SubpathRouter.matcher (pathname req)) eqn:Hm.
  2:{ split; [discriminate|]. now intros (_ & [=] & _). }
  destruct (startsWith (hostHeader req) "titles.") eqn:Hh.
  2:{ split; [discriminate|]. intros (E & _).
      apply titles_label_host in E. congruence. }
  apply titles_label_host in Hh.
  destruct (String.eqb_spec (pathname req) "/") as [E|N].
  - rewrite E. split; [now intros [= <-]|]. now intros (_ & _ & _ & ->).
  - destruct (startsWith (pathname req) "/titles").
    + split; [discriminate|]. now intros (_ & _ & [=] & _).
    + split; [now intros [= <-]|]. now intros (_ & _ & _ & ->).
Qed.

(** X4: a rewritten request is let through when it is routed again: no
    router rewrites its own result. *)
Theorem rewrite_is_final (req : Request) (target : string) :
  (TitlesRouter.route req = Rewrite target ->
   TitlesRouter.route {| host := host req; pathname := target |} = Next)
  /\ (TopicsRouter.route req = Rewrite target ->
      TopicsRouter.route {| host := host req; pathname := target |} = Next)
  /\ (SubpathRouter.route req = Rewrite target ->
      SubpathRouter.route {| host := host req; pathname := target |} = Next).
Proof.
  repeat apply conj.
  - rewrite !TitlesRouter_route_cases. cbn [pathname]. unfold hostHeader.
    cbn [host].
    destruct (startsWith _ "titles."); [|discriminate].
    destruct (isAssetPath (pathname req)); [discriminate|].
    destruct (String.eqb (pathname req) "/titles"); [discriminate|].
    now intros [= <-].
  - rewrite !TopicsRouter_route_cases. cbn [pathname]. unfold hostHeader.
    cbn [host].
    destruct (startsWith _ "topics."); [|discriminate].
    destruct (isAssetPath (pathname req)); [discriminate|].
    destruct (String.eqb (pathname req) "/topics"); [discriminate|].
    now intros [= <-].
  - rewrite !SubpathRouter_route_cases. cbn [pathname]. unfold hostHeader.
    cbn [host].
    destruct (SubpathRouter.matcher (pathname req)); [|discriminate].
    destruct (startsWith _ "titles."); [|discriminate].
    destruct (String.eqb (pathname req) "/").
    + intros [= <-]. reflexivity.
    + destruct (startsWith (pathname req) "/titles"); [discriminate|].
      intros [= <-]. rewrite (startsWith_sapp "/titles" (pathname req)).
      now destruct (SubpathRouter.matcher _).
Qed.

Lemma rewrite_is_final_witness :
  SubpathRouter.route
    {| host := Some "titles.example.com"; pathname := "/about" |}
  = Rewrite "/titles/about"
  /\ SubpathRouter.route
       {| host := Some "titles.example.com"; pathname := "/titles/about" |}
     = Next.
Proof.
  split; [reflexivity|].
  exact (proj2 (proj2 (rewrite_is_final
                         {| host := Some "titles.example.com";
                            pathname := "/about" |} "/titles/about"))
           eq_refl).
Defined.

(** X5: the port of the host header plays no part in the routing. *)
Theorem route_ignores_port (h port path : string) :
  containsChar ":" h = false ->
  let withPort := {| host := Some (h +:+ ":" +:+ port); pathname := path |} in
  let bare := {| host := Some h; pathname := path |} in
  TitlesRouter.route withPort = TitlesRouter.route bare
  /\ TopicsRouter.route withPort = TopicsRouter.route bare
  /\ SubpathRouter.route withPort = SubpathRouter.route bare.
Proof.
  intros Hh withPort bare. subst withPort bare.
  assert (E1 : beforeChar ":" (h +:+ ":" +:+ port) = h)
    by apply (beforeChar_sapp ":" h port Hh).
  assert (E2 : beforeChar ":" h = h) by apply (beforeChar_id ":" h Hh).
  repeat apply conj.
  - rewrite !TitlesRouter_route_cases. unfold hostHeader. cbn [host pathname].
    change (default "" (Some ?x)) with x. now rewrite E1, E2.
  - rewrite !TopicsRouter_route_cases. unfold hostHeader. cbn [host pathname].
    change (default "" (Some ?x)) with x. now rewrite E1, E2.
  - rewrite !SubpathRouter_route_cases. unfold hostHeader. cbn [host pathname].
    change (default "" (Some ?x)) with x.
    rewrite <- (startsWith_beforeColon "titles." (h +:+ ":" +:+ port) eq_refl).
    rewrite <- (startsWith_beforeColon "titles." h eq_refl).
    now rewrite E1, E2.
Qed.

Lemma route_ignores_port_witness :
  containsChar ":" "titles.example.com" = false
  /\ TitlesRouter.route
       {| host := Some ("titles.example.com" +:+ ":" +:+ "3000");
          pathname := "/x" |}
     = TitlesRouter.route
         {| host := Some "titles.example.com"; pathname := "/x" |}.
Proof.
  split; [reflexivity|].
  exact (proj1 (route_ignores_port "titles.example.com" "3000" "/x" eq_refl)).
Defined.

(** ** Toggles and rendering *)

Lemma isOpen_toggleTopic (idx j : nat) (st : ExpansionState) :
  isOpen (toggleTopic idx st) j
  = if decide (idx = j) then negb (isOpen st j) else isOpen st j.
Proof.
  unfold isOpen, toggleTopic; cbn. case_decide as E.
  - subst j. now rewrite lookup_insert_eq.
  - now rewrite lookup_insert_ne.
Qed.

Lemma subOpen_toggleTopic (idx t s : nat) (st : ExpansionState) :
  subOpen (toggleTopic idx st) t s = subOpen st t s.
Proof. reflexivity. Qed.

Lemma isOpen_toggleSubtype (t s j : nat) (st : ExpansionState) :
  isOpen (toggleSubtype t s st) j = isOpen st j.
Proof. reflexivity. Qed.

Lemma subOpen_toggleSubtype (t s t' s' : nat) (st : ExpansionState) :
  subOpen (toggleSubtype t s st) t' s'
  = if decide ((t, s) = (t', s')) then negb (subOpen st t' s')
    else subOpen st t' s'.
Proof.
  unfold subOpen, toggleSubtype; cbn. case_decide as E.
  - injection E as -> ->. now rewrite lookup_insert_eq.
  - rewrite lookup_insert_ne; [reflexivity|].
    intros K. apply subtypeKey_inj in K as [-> ->]. now apply E.
Qed.

(** Rendering reads the state only through the two kinds of flags. *)
Lemma renderSubtypes_flags (label : string -> Label) (item : string -> ExampleView)
  (st1 st2 : ExpansionState) (tIdx : nat) (subs : list Subtype) :
  (forall s, subOpen st1 tIdx s = subOpen st2 tIdx s) ->
  renderSubtypes label item st1 tIdx subs = renderSubtypes label item st2 tIdx subs.
Proof.
  intros H. unfold renderSubtypes. destruct subs as [|sub subs]; [reflexivity|].
  f_equal. apply imap_ext. intros i x _. unfold renderSubtype. now rewrite H.
Qed.

Lemma render_flags (p1 p2 : Page) :
  topics p1 = topics p2 ->
  (forall t, isOpen (expansion p1) t = isOpen (expansion p2) t) ->
  (forall t s, subOpen (expansion p1) t s = subOpen (expansion p2) t s) ->
  TopicsPage.render p1 = TopicsPage.render p2
  /\ PreviewPage.render p1 = PreviewPage.render p2
  /\ TitlesPage.render p1 = TitlesPage.render p2.
Proof.
  intros Ht Ho Hs.
  unfold TopicsPage.render, PreviewPage.render, TitlesPage.render. rewrite Ht.
  repeat apply conj; f_equal; apply imap_ext; intros i x _.
  - unfold TopicsPage.renderTopic. rewrite Ho.
    destruct (isOpen _ i); [|reflexivity].
    destruct (TopicsPage.subtypesOf x); [|reflexivity]. cbn.
    now rewrite (renderSubtypes_flags _ _ _ (expansion p2)).
  - unfold PreviewPage.renderTopic. rewrite Ho.
    now rewrite (renderSubtypes_flags _ _ _ (expansion p2)).
  - unfold TitlesPage.renderTopic. rewrite Ho.
    now rewrite (renderSubtypes_flags _ _ _ (expansion p2)).
Qed.

(** X6: clicking the same disclosure control twice restores every
    expansion flag, so each page describes the same elements as before the
    two clicks: the same rows with the same labels and open flags, and the
    same links and preview elements for the same urls.  (What a preview
    component holds is no part of that description: a preview that the
    first click removed is mounted anew by the second.) *)
Theorem double_click_restores_render (p : Page) (a : Action) :
  topics (click (click p a) a) = topics p
  /\ (forall t, isOpen (expansion (click (click p a) a)) t
                = isOpen (expansion p) t)
  /\ (forall t s, subOpen (expansion (click (click p a) a)) t s
                  = subOpen (expansion p) t s)
  /\ TopicsPage.render (click (click p a) a) = TopicsPage.render p
  /\ PreviewPage.render (click (click p a) a) = PreviewPage.render p
  /\ TitlesPage.render (click (click p a) a) = TitlesPage.render p.
Proof.
  assert (Ho : forall t, isOpen (expansion (click (click p a) a)) t
                         = isOpen (expansion p) t).
  { destruct a as [idx|t s]; cbn [click expansion act]; intros j.
    - rewrite !isOpen_toggleTopic. case_decide; [|reflexivity].
      apply negb_involutive.
    - now rewrite !isOpen_toggleSubtype. }
  assert (Hs : forall t s, subOpen (expansion (click (click p a) a)) t s
                           = subOpen (expansion p) t s).
  { destruct a as [idx|t s]; cbn [click expansion act]; intros t' s'.
    - now rewrite !subOpen_toggleTopic.
    - rewrite !subOpen_toggleSubtype. case_decide; [|reflexivity].
      apply negb_involutive. }
  split; [reflexivity|]. split; [exact Ho|]. split; [exact Hs|].
  now apply render_flags.
Qed.

(** X7: toggles of different controls commute: the state after two clicks
    does not depend on their order. *)
Theorem toggles_commute (st : ExpansionState) :
  (forall i j : nat, i <> j ->
      toggleTopic i (toggleTopic j st) = toggleTopic j (toggleTopic i st))
  /\ (forall i t s : nat,
        toggleTopic i (toggleSubtype t s st) = toggleSubtype t s (toggleTopic i st))
  /\ (forall t s t' s' : nat, (t, s) <> (t', s') ->
        toggleSubtype t s (toggleSubtype t' s' st)
        = toggleSubtype t' s' (toggleSubtype t s st)).
Proof.
  repeat apply conj.
  - intros i j Hij. unfold toggleTopic; cbn. f_equal.
    rewrite (lookup_insert_ne _ j i) by congruence.
    rewrite (lookup_insert_ne _ i j) by congruence.
    now apply insert_insert_ne.
  - reflexivity.
  - intros t s t' s' Hne.
    assert (K : subtypeKey t s <> subtypeKey t' s').
    { intros K. apply subtypeKey_inj in K as [-> ->]. now apply Hne. }
    unfold toggleSubtype; cbn. f_equal.
    rewrite (lookup_insert_ne _ (subtypeKey t' s') (subtypeKey t s)) by congruence.
    rewrite (lookup_insert_ne _ (subtypeKey t s) (subtypeKey t' s')) by congruence.
    now apply insert_insert_ne.
Qed.

Lemma toggles_commute_witness :
  (0%nat, 1%nat) <> (1%nat, 0%nat)
  /\ toggleSubtype 0 1 (toggleSubtype 1 0 (TitlesPage.initial []))
     = toggleSubtype 1 0 (toggleSubtype 0 1 (TitlesPage.initial [])).
Proof.
  assert (N : (0%nat, 1%nat) <> (1%nat, 0%nat)) by discriminate.
  split; [exact N|].
  exact (proj2 (proj2 (toggles_commute (TitlesPage.initial []))) 0%nat 1%nat
           1%nat 0%nat N).
Defined.

(** X8: the first page throws while rendering exactly when some expanded
    topic has no [subtypes] field; in particular its first render, with
    everything collapsed, never throws, whatever the document. *)
Theorem TopicsPage_render_throws_iff (p : Page) :
  (TopicsPage.render p = Throw TypeError
   <-> exists i t, topics p !! i = Some t /\ subtypes t = None
                   /\ isOpen (expansion p) i = true)
  /\ (forall db : Database,
        exists views, TopicsPage.render (TopicsPage.mount db) = Ok views).
Proof.
  split.
  - split.
    + intros H. apply sequenceR_imap_Throw_inv in H as (i & t & Hl & Hf).
      exists i, t. split; [exact Hl|].
      unfold TopicsPage.renderTopic, TopicsPage.subtypesOf in Hf.
      destruct (isOpen _ i); [|discriminate].
      destruct (subtypes t); [discriminate|]. now split.
    + intros (i & t & Hl & Hn & Ho).
      now apply (TopicsPage_render_missing_subtypes p i t).
  - intros db. eexists. unfold TopicsPage.render.
    apply (sequenceR_imap_Ok _
             (fun _ topic => {| tv_label := Text (topic_type topic);
                                tv_open := false; tv_body := None |})).
    reflexivity.
Qed.

(** ** What a rendered page shows *)

Lemma map_imap {A B C : Type} (g : B -> C) (f : nat -> A -> B) (l : list A) :
  map g (imap f l) = imap (fun i x => g (f i x)) l.
Proof.
  revert f. induction l as [|x l IH]; intros f; [reflexivity|].
  cbn. f_equal. apply IH.
Qed.

Lemma sequenceR_imap_map {A B C : Type} (f : nat -> A -> Result B)
  (lab : B -> C) (h : nat -> A -> C) (l : list A) (vs : list B) :
  (forall i x v, f i x = Ok v -> lab v = h i x) ->
  sequenceR (imap f l) = Ok vs -> map lab vs = imap h l.
Proof.
  revert f h vs. induction l as [|x l IH]; intros f h vs H; cbn.
  - now intros [= <-].
  - destruct (f 0%nat x) as [v|e] eqn:E; cbn; [|discriminate].
    destruct (sequenceR (imap (f ∘ S) l)) as [t|e] eqn:Et; cbn; [|discriminate].
    intros [= <-]. cbn. rewrite (H _ _ _ E). f_equal.
    apply (IH (f ∘ S) (h ∘ S)); [|exact Et]. intros i y w. apply H.
Qed.

Lemma examplesShown_renderSubtype (label : string -> Label)
  (item : string -> ExampleView) (st : ExpansionState) (tIdx sIdx : nat)
  (sub : Subtype) :
  examplesShown (renderSubtype label item st tIdx sIdx sub)
  = map item (if subOpen st tIdx sIdx then default [] (examples sub) else []).
Proof.
  unfold examplesShown, renderSubtype. cbn [sv_body].
  destruct (subOpen st tIdx sIdx); [|reflexivity].
  now destruct (examples sub) as [[|u us]|].
Qed.

Lemma shown_renderSubtypes (label : string -> Label)
  (item : string -> ExampleView) (st : ExpansionState) (tIdx : nat)
  (subs : list Subtype) :
  concat (map examplesShown
            (subtypeRows (renderSubtypes label item st tIdx subs)))
  = map item
      (concat (imap (fun sIdx sub =>
                 if subOpen st tIdx sIdx then default [] (examples sub) else [])
               subs)).
Proof.
  assert (E : subtypeRows (renderSubtypes label item st tIdx subs)
              = imap (renderSubtype label item st tIdx) subs)
    by now destruct subs.
  rewrite E, map_imap, concat_map, map_imap. f_equal.
  apply imap_ext. intros i x _. apply examplesShown_renderSubtype.
Qed.

Lemma shownExamples_of_rows (item : string -> ExampleView) (st : ExpansionState)
  (f : nat -> Topic -> Result TopicView) (ts : list Topic) (views : list TopicView) :
  (forall i x v, f i x = Ok v ->
     concat (map examplesShown (subtypesShown v)) = map item (rowExamples st i x)) ->
  sequenceR (imap f ts) = Ok views ->
  shownExamples views = map item (visibleExamples st ts).
Proof.
  intros H Hr. unfold shownExamples, visibleExamples.
  rewrite (sequenceR_imap_map f _ (fun i x => map item (rowExamples st i x))
             ts views H Hr).
  rewrite concat_map, map_imap. reflexivity.
Qed.

Lemma PreviewPage_shown (p : Page) (views : list TopicView) :
  PreviewPage.render p = Ok views ->
  shownExamples views = map Preview (visibleExamples (expansion p) (topics p)).
Proof.
  apply shownExamples_of_rows. intros i x v [= <-].
  unfold rowExamples. destruct (isOpen (expansion p) i); [|reflexivity].
  apply (shown_renderSubtypes Text Preview).
Qed.

Lemma TitlesPage_shown (p : Page) (views : list TopicView) :
  TitlesPage.render p = Ok views ->
  shownExamples views = map Preview (visibleExamples (expansion p) (topics p)).
Proof.
  apply shownExamples_of_rows. intros i x v [= <-].
  unfold rowExamples. destruct (isOpen (expansion p) i); [|reflexivity].
  apply (shown_renderSubtypes TitlesPage.label Preview).
Qed.

Lemma TopicsPage_shown (p : Page) (views : list TopicView) :
  TopicsPage.render p = Ok views ->
  shownExamples views = map Link (visibleExamples (expansion p) (topics p)).
Proof.
  apply shownExamples_of_rows. intros i x v.
  unfold TopicsPage.renderTopic, TopicsPage.subtypesOf, rowExamples.
  destruct (isOpen (expansion p) i); [|now intros [= <-]].
  destruct (subtypes x) as [subs|]; cbn; [|discriminate].
  intros [= <-]. apply (shown_renderSubtypes Text Link).
Qed.

(** X9: the example elements of a rendered page are exactly the urls of the
    expanded subtypes of the expanded topics, in document order: previews
    in the two later pages (which always render), plain links in the first
    page (whenever it renders).  Nothing is instantiated for a collapsed
    subtype or a collapsed topic. *)
Theorem render_shows_visible_examples (p : Page) :
  (exists views, PreviewPage.render p = Ok views
      /\ shownExamples views
         = map Preview (visibleExamples (expansion p) (topics p)))
  /\ (exists views, TitlesPage.render p = Ok views
        /\ shownExamples views
           = map Preview (visibleExamples (expansion p) (topics p)))
  /\ (forall views, TopicsPage.render p = Ok views ->
        shownExamples views
        = map Link (visibleExamples (expansion p) (topics p))).
Proof.
  repeat apply conj.
  - eexists. split; [apply PreviewPage_render_total|].
    apply PreviewPage_shown, PreviewPage_render_total.
  - eexists. split; [apply TitlesPage_render_total|].
    apply TitlesPage_shown, TitlesPage_render_total.
  - apply TopicsPage_shown.
Qed.

(** ** Default expansion *)

Lemma fold_insert_true {K X : Type} `{Countable K} (g : X -> K) (xs : list X)
  (m : gmap K bool) (k : K) :
  truthy (fold_left (fun m x => <[g x := true]> m) xs m !! k) = true
  <-> (exists x, In x xs /\ g x = k) \/ truthy (m !! k) = true.
Proof.
  revert m. induction xs as [|x xs IH]; intros m; cbn [fold_left].
  - split; [now right|]. now intros [(x & [] & _)|E].
  - rewrite IH. split.
    + intros [(y & Hy & E)|E].
      * left. exists y. split; [now right|exact E].
      * destruct (decide (g x = k)) as [<-|N].
        -- left. exists x. split; [now left|reflexivity].
        -- right. now rewrite lookup_insert_ne in E.
    + intros [(y & [<-|Hy] & E)|E].
      * right. rewrite <- E. now rewrite lookup_insert_eq.
      * left. now exists y.
      * destruct (decide (g x = k)) as [<-|N].
        -- right. now rewrite lookup_insert_eq.
        -- right. now rewrite lookup_insert_ne.
Qed.

Lemma PreviewPage_isOpen_initial (ts : list Topic) (tIdx : nat) :
  isOpen (PreviewPage.initial ts) tIdx = true <-> (tIdx < length ts)%nat.
Proof.
  unfold isOpen, PreviewPage.initial, PreviewPage.defaultExpandedTopics.
  cbn [expandedTopics].
  rewrite (fold_insert_true (fun i : nat => i)). rewrite lookup_empty. cbn.
  split.
  - intros [(x & Hx & <-)|E]; [|discriminate]. apply in_seq in Hx. lia.
  - intros Hlt. left. exists tIdx. split; [apply in_seq; lia|reflexivity].
Qed.

Lemma PreviewPage_subtypes_fold (ps : list (nat * Topic)) (m : gmap string bool)
  (t s : nat) :
  truthy (fold_left
            (fun m '(tIdx, topic) =>
               let subs := default [] (subtypes topic) in
               fold_left (fun m sIdx => <[subtypeKey tIdx sIdx := true]> m)
                         (seq 0 (length subs)) m)
            ps m !! subtypeKey t s) = true
  <-> (exists topic, In (t, topic) ps
                     /\ (s < length (default [] (subtypes topic)))%nat)
      \/ truthy (m !! subtypeKey t s) = true.
Proof.
  revert m. induction ps as [|[tIdx topic] ps IH]; intros m; cbn [fold_left].
  - split; [now right|]. now intros [(x & [] & _)|E].
  - rewrite IH. rewrite (fold_insert_true (subtypeKey tIdx)). split.
    + intros [(tp & Hin & Hlt)|[(x & Hx & E)|E]].
      * left. exists tp. split; [now right|exact Hlt].
      * apply subtypeKey_inj in E as [-> ->]. apply in_seq in Hx.
        left. exists topic. split; [now left|lia].
      * now right.
    + intros [(tp & [[= -> ->]|Hin] & Hlt)|E].
      * right. left. exists s. split; [apply in_seq; lia|reflexivity].
      * left. now exists tp.
      * right. now right.
Qed.

Lemma In_imap_pair {A : Type} (l : list A) (i : nat) (x : A) :
  In (i, x) (imap (fun i x => (i, x)) l) <-> l !! i = Some x.
Proof.
  rewrite <- list_elem_of_In, elem_of_lookup_imap. split.
  - now intros (j & y & [= -> ->] & Hl).
  - intros Hl. now exists i, x.
Qed.

Lemma PreviewPage_subOpen_initial (ts : list Topic) (tIdx sIdx : nat) :
  subOpen (PreviewPage.initial ts) tIdx sIdx = true
  <-> exists topic, ts !! tIdx = Some topic
                    /\ (sIdx < length (default [] (subtypes topic)))%nat.
Proof.
  unfold subOpen, PreviewPage.initial, PreviewPage.defaultExpandedSubtypes.
  cbn [expandedSubtypes].
  rewrite PreviewPage_subtypes_fold, lookup_empty. cbn. split.
  - intros [(tp & Hin & Hlt)|E]; [|discriminate].
    exists tp. split; [now apply In_imap_pair|exact Hlt].
  - intros (tp & Hl & Hlt). left. exists tp.
    split; [now apply In_imap_pair|exact Hlt].
Qed.

(** X10: in the page that starts expanded, a topic row is open at mount
    exactly when its index is one of the topics, and a subtype row exactly
    when the pair of indices names a subtype of the document. *)
Theorem PreviewPage_initial_expands_all (ts : list Topic) :
  (forall tIdx : nat,
      isOpen (PreviewPage.initial ts) tIdx = true <-> (tIdx < length ts)%nat)
  /\ (forall tIdx sIdx : nat,
        subOpen (PreviewPage.initial ts) tIdx sIdx = true
        <-> exists topic, ts !! tIdx = Some topic
                          /\ (sIdx < length (default [] (subtypes topic)))%nat).
Proof.
  split; [apply PreviewPage_isOpen_initial|apply PreviewPage_subOpen_initial].
Qed.

Lemma imap_as_map {A B : Type} (f : nat -> A -> B) (g : A -> B) (l : list A) :
  (forall i x, l !! i = Some x -> f i x = g x) -> imap f l = map g l.
Proof.
  revert f. induction l as [|x l IH]; intros f Hf; [reflexivity|].
  cbn. rewrite (Hf 0%nat x eq_refl). f_equal.
  apply IH. intros i y Hl. now apply (Hf (S i)).
Qed.

Lemma concat_imap_all_nil {A B : Type} (f : nat -> A -> list B) (l : list A) :
  (forall i x, l !! i = Some x -> f i x = []) -> concat (imap f l) = [].
Proof.
  intros Hf. rewrite (imap_as_map f (fun _ => []) l Hf). clear Hf.
  induction l as [|x l IH]; [reflexivity|]. cbn. exact IH.
Qed.

Lemma PreviewPage_initial_visible (ts : list Topic) :
  visibleExamples (PreviewPage.initial ts) ts = allExamples ts.
Proof.
  unfold visibleExamples, allExamples. f_equal.
  apply imap_as_map. intros i topic Hl. unfold rowExamples.
  rewrite (proj2 (PreviewPage_isOpen_initial ts i)) by now apply lookup_lt_Some in Hl.
  f_equal. apply imap_as_map. intros j sub Hs.
  rewrite (proj2 (PreviewPage_subOpen_initial ts i j)); [reflexivity|].
  exists topic. split; [exact Hl|]. now apply lookup_lt_Some in Hs.
Qed.

Lemma TitlesPage_initial_visible (ts : list Topic) :
  visibleExamples (TitlesPage.initial ts) ts = [].
Proof.
  unfold visibleExamples. apply concat_imap_all_nil. intros i topic _.
  unfold rowExamples. destruct (isOpen _ i); [|reflexivity].
  apply concat_imap_all_nil. intros j sub _. reflexivity.
Qed.

Lemma TopicsPage_initial_visible (ts : list Topic) :
  visibleExamples (TopicsPage.initial ts) ts = [].
Proof.
  unfold visibleExamples. apply concat_imap_all_nil. intros i topic _.
  reflexivity.
Qed.

(** X11: what the first render instantiates.  The page that starts expanded
    mounts a preview, and so starts a lookup, for every url of the document,
    in the order of the sorted topics; the other two pages mount no example
    element at all until the user expands a subtype. *)
Theorem first_render_examples (db : Database) :
  (exists views, PreviewPage.render (PreviewPage.mount db) = Ok views
      /\ shownExamples views = map Preview (allExamples (sortedTopics db)))
  /\ (exists views, TitlesPage.render (TitlesPage.mount db) = Ok views
        /\ shownExamples views = [])
  /\ (exists views, TopicsPage.render (TopicsPage.mount db) = Ok views
        /\ shownExamples views = []).
Proof.
  repeat apply conj.
  - eexists. split; [apply PreviewPage_render_total|].
    rewrite (PreviewPage_shown _ _ (PreviewPage_render_total _)).
    unfold PreviewPage.mount. cbn [topics expansion].
    now rewrite PreviewPage_initial_visible.
  - eexists. split; [apply TitlesPage_render_total|].
    rewrite (TitlesPage_shown _ _ (TitlesPage_render_total _)).
    unfold TitlesPage.mount. cbn [topics expansion].
    now rewrite TitlesPage_initial_visible.
  - assert (R : exists views,
               TopicsPage.render (TopicsPage.mount db) = Ok views).
    { eexists. unfold TopicsPage.render.
      apply (sequenceR_imap_Ok _
               (fun _ topic => {| tv_label := Text (topic_type topic);
                                  tv_open := false; tv_body := None |})).
      reflexivity. }
    destruct R as [views R]. exists views. split; [exact R|].
    rewrite (TopicsPage_shown _ _ R).
    unfold TopicsPage.mount. cbn [topics expansion].
    now rewrite TopicsPage_initial_visible.
Qed.

(** ** More on the order of the topics *)

(** X12: the sort is stable.  Entries whose keys have the same numeric
    value (such as "1" and "01") are displayed in the order in which the
    document enumerates them. *)
Theorem sortedEntries_stable (db : Database) (k : Z) :
  Forall (fun e => isNumericKey (fst e) = true) db ->
  List.filter (fun e => (keyValue e =? k)%Z) (sortedEntries db)
  = List.filter (fun e => (keyValue e =? k)%Z) db.
Proof.
  intros Hkeys.
  apply (sortBy_filter compareKeys keyValue
           (fun e => isNumericKey (fst e) = true)); [|exact Hkeys].
  intros a b. apply compareKeys_numeric.
Qed.

Lemma sortedEntries_stable_witness :
  let db := [("1", {| topic_type := "first"; subtypes := None |});
             ("2", {| topic_type := "other"; subtypes := None |});
             ("01", {| topic_type := "second"; subtypes := None |})] in
  Forall (fun e => isNumericKey (fst e) = true) db
  /\ map fst (List.filter (fun e => (keyValue e =? 1)%Z) (sortedEntries db))
     = ["1"; "01"].
Proof.
  intros db.
  assert (K : Forall (fun e => isNumericKey (fst e) = true) db)
    by (repeat constructor).
  split; [exact K|].
  rewrite (sortedEntries_stable db 1 K). reflexivity.
Defined.

(** X13: a document that already enumerates its entries in ascending key
    order is displayed as it is, and sorting a second time changes
    nothing. *)
Theorem sortedEntries_of_sorted (db : Database) :
  Forall (fun e => isNumericKey (fst e) = true) db ->
  (StronglySorted (fun a b => (keyValue a <= keyValue b)%Z) db ->
   sortedEntries db = db)
  /\ sortedEntries (sortedEntries db) = sortedEntries db.
Proof.
  intros Hkeys.
  assert (C : forall a b : string * Topic,
             isNumericKey (fst a) = true -> isNumericKey (fst b) = true ->
             (compareKeys a b <=? 0)%Z = (keyValue a <=? keyValue b)%Z)
    by apply compareKeys_numeric.
  split.
  - intros Hs. now apply (sortBy_sorted_id compareKeys keyValue _ C).
  - apply (sortBy_sorted_id compareKeys keyValue _ C).
    + eapply Permutation_Forall; [symmetry; apply sortBy_perm|exact Hkeys].
    + now apply (sortBy_sorted compareKeys keyValue _ C).
Qed.

Lemma sortedEntries_of_sorted_witness :
  let db := [("1", {| topic_type := "a"; subtypes := None |});
             ("2", {| topic_type := "b"; subtypes := None |})] in
  Forall (fun e => isNumericKey (fst e) = true) db
  /\ sortedEntries (sortedEntries db) = sortedEntries db.
Proof.
  intros db.
  assert (K : Forall (fun e => isNumericKey (fst e) = true) db)
    by (repeat constructor).
  split; [exact K|]. exact (proj2 (sortedEntries_of_sorted db K)).
Defined.

(** ** The shape of the formatter's result *)

Section EmphasisShape.
Import Emphasis.

Lemma spanNonStar_rest_star (s a rest : string) (e : ascii) :
  spanNonStar s = (a, String e rest) -> isStar e = true.
Proof.
  revert a. induction s as [|c r IH]; intros a; cbn; [discriminate|].
  destruct (isStar c) eqn:Hc.
  - now intros [= <- <- <-].
  - destruct (spanNonStar r) as [a' b']. intros [= <- ->]. now apply (IH a').
Qed.

Lemma matchAt_shape (s m rest : string) :
  matchAt s = Some (m, rest) ->
  exists w, m = "*" +:+ w +:+ "*" /\ w <> "" /\ starFree w = true.
Proof.
  destruct s as [|c r]; cbn; [discriminate|].
  destruct (isStar c) eqn:Hc; [|discriminate].
  destruct (spanNonStar r) as [a b] eqn:E.
  destruct a as [|i inner]; [discriminate|].
  destruct b as [|e rest']; [discriminate|].
  intros [= <- <-].
  apply isStar_true in Hc as ->.
  pose proof (spanNonStar_rest_star _ _ _ _ E) as He.
  apply isStar_true in He as ->.
  apply spanNonStar_spec in E as [_ Hf].
  exists (String i inner). split; [reflexivity|]. split; [discriminate|exact Hf].
Qed.

Lemma matchAt_None_star (c : ascii) (r : string) :
  isStar c = true -> matchAt (String c r) = None -> nextOK r = true.
Proof.
  intros Hc. cbn. rewrite Hc. destruct r as [|d r']; [reflexivity|].
  cbn [nextOK]. destruct (isStar d) eqn:Hd; [reflexivity|].
  destruct (spanNonStar (String d r')) as [a b] eqn:E.
  pose proof E as E'. cbn in E'. rewrite Hd in E'.
  destruct (spanNonStar r') as [a' b']. injection E' as <- <-.
  destruct b' as [|e rest]; [|discriminate].
  intros _. apply spanNonStar_spec in E as [-> Hf].
  now rewrite sapp_nil_r.
Qed.

Lemma allStars_snoc (s : string) (c : ascii) :
  allStars s = true -> isStar c = true -> allStars (s +:+ String c "") = true.
Proof.
  intros Hs Hc. induction s as [|d s IH].
  - rewrite sapp_nil_l. cbn [allStars]. now rewrite Hc.
  - cbn [allStars] in Hs. apply andb_prop in Hs as [Hd Hs].
    rewrite sapp_cons. cbn [allStars]. now rewrite Hd, (IH Hs).
Qed.

Lemma allStars_substring (s : string) (n m : nat) :
  allStars s = true -> allStars (String.substring n m s) = true.
Proof.
  revert n m. induction s as [|c s IH]; intros n m Hs.
  - now destruct n, m.
  - cbn in Hs. apply andb_prop in Hs as [Hc Hs].
    destruct n as [|n]; [destruct m as [|m]|]; cbn; [reflexivity| |now apply IH].
    now rewrite Hc, (IH 0%nat m Hs).
Qed.

Lemma startsWith_snoc (s : string) (c : ascii) :
  s <> "" -> startsWith (s +:+ String c "") "*" = startsWith s "*".
Proof.
  destruct s as [|d s]; [contradiction|]. intros _.
  rewrite sapp_cons, !startsWith_cons, !startsWith_nil. reflexivity.
Qed.

Lemma endsWithChar_snoc (s : string) (c d : ascii) :
  endsWithChar (s +:+ String c "") d = Ascii.eqb c d.
Proof. unfold endsWithChar. now rewrite lastChar_snoc. Qed.

Lemma classify_not_starting (p : string) :
  startsWith p "*" = false -> classify p = Plain p.
Proof. intros H. unfold classify. now rewrite H. Qed.

Lemma classify_not_ending (p : string) :
  endsWithChar p star = false -> classify p = Plain p.
Proof. intros H. unfold classify. rewrite H. now rewrite andb_false_r. Qed.

Lemma scanInv_piece (cur s : string) :
  scanInv cur s -> classify cur = Plain cur \/ allStars cur = true.
Proof.
  intros [[H _]|[[H _]|[_ H]]].
  - now right.
  - left. now apply classify_not_starting.
  - left. now apply classify_not_ending.
Qed.

Lemma snoc_not_nil (s : string) (c : ascii) : s +:+ String c "" <> "".
Proof. now destruct s. Qed.

Lemma scanInv_step (cur : string) (c : ascii) (r : string) :
  scanInv cur (String c r) -> matchAt (String c r) = None ->
  scanInv (cur +:+ String c "") r.
Proof.
  intros J Hm. destruct (isStar c) eqn:Hc.
  - pose proof (matchAt_None_star c r Hc Hm) as Hn.
    destruct J as [[Ha _]|[[Hs Hne]|[Hf _]]].
    + left. split; [now apply allStars_snoc|now right].
    + right. left. split; [now rewrite startsWith_snoc|apply snoc_not_nil].
    + cbn in Hf. now rewrite Hc in Hf.
  - assert (He : endsWithChar (cur +:+ String c "") star = false)
      by (rewrite endsWithChar_snoc; exact Hc).
    destruct J as [[Ha [->|Hn]]|[[Hs Hne]|[Hf _]]].
    + right. left. split; [|discriminate].
      rewrite sapp_nil_l, startsWith_cons.
      destruct (ascii_dec "*" c) as [<-|]; [discriminate Hc|reflexivity].
    + right. right. split; [|exact He].
      cbn [nextOK] in Hn. rewrite Hc in Hn. cbn in Hn. rewrite Hc in Hn.
      exact Hn.
    + right. left. split; [now rewrite startsWith_snoc|apply snoc_not_nil].
    + right. right. split; [|exact He]. cbn in Hf. now rewrite Hc in Hf.
Qed.

Lemma splitLoop_pieces (fuel : nat) (cur s : string) :
  (String.length s <= fuel)%nat -> scanInv cur s ->
  Pieces (splitLoop fuel cur s).
Proof.
  revert cur s. induction fuel as [|fuel IH]; intros cur s Hlen J.
  - destruct s; [|cbn in Hlen; lia]. constructor. now apply (scanInv_piece _ "").
  - destruct s as [|c r]; [constructor; now apply (scanInv_piece _ "")|].
    cbn [splitLoop]. cbn in Hlen.
    destruct (matchAt (String c r)) as [[m rest]|] eqn:E.
    + destruct (matchAt_shape _ _ _ E) as (w & -> & Hne & Hf).
      apply matchAt_sound in E as [_ Hl]. cbn in Hl.
      constructor; [now apply (scanInv_piece _ (String c r))|exact Hne|exact Hf|].
      apply IH; [lia|]. left. split; [reflexivity|now left].
    + apply IH; [lia|]. now apply scanInv_step.
Qed.

Lemma split_pieces (text : string) : Pieces (split text).
Proof.
  apply splitLoop_pieces; [lia|]. left. split; [reflexivity|now left].
Qed.

(** *** The formatter and the parsing rule *)

Lemma untilStar_spanNonStar (s : string) : untilStar s = spanNonStar s.
Proof.
  induction s as [|c r IH]; [reflexivity|]. cbn [untilStar spanNonStar].
  change (Ascii.eqb c "*") with (isStar c). now rewrite IH.
Qed.

Lemma plainSegment_true (p : string) : plainSegment true p = [Plain p].
Proof. now destruct p. Qed.

Lemma plainSegment_false (p : string) :
  plainSegment false p = dropEmptyPlain (plainSegment true p).
Proof. now destruct p. Qed.

Lemma ruleScan_match (k : bool) (fuel : nat) (cur : string) (c : ascii)
  (r m rest : string) :
  matchAt (String c r) = Some (m, rest) ->
  exists w, m = "*" +:+ w +:+ "*"
            /\ ruleScan k (S fuel) cur (String c r)
               = plainSegment k cur ++ Emphasized w :: ruleScan k fuel "" rest.
Proof.
  intros H. cbn [matchAt] in H.
  destruct (isStar c) eqn:Hc; [|discriminate].
  destruct (spanNonStar r) as [[|i inner] [|e rest']] eqn:E; try discriminate.
  injection H as <- <-. exists (String i inner). split.
  - apply isStar_true in Hc as ->.
    apply spanNonStar_rest_star in E. apply isStar_true in E as ->. reflexivity.
  - cbn [ruleScan]. rewrite untilStar_spanNonStar, E.
    change (Ascii.eqb c "*") with (isStar c). now rewrite Hc.
Qed.

Lemma ruleScan_nomatch (k : bool) (fuel : nat) (cur : string) (c : ascii)
  (r : string) :
  matchAt (String c r) = None ->
  ruleScan k (S fuel) cur (String c r) = ruleScan k fuel (cur +:+ String c "") r.
Proof.
  intros H. cbn [matchAt] in H. cbn [ruleScan].
  rewrite untilStar_spanNonStar. change (Ascii.eqb c "*") with (isStar c).
  destruct (isStar c) eqn:Hc; [|reflexivity].
  apply isStar_true in Hc as ->.
  destruct (spanNonStar r) as [[|i inner] [|e rest']]; try discriminate H;
    reflexivity.
Qed.

Lemma allStars_ends (s : string) :
  s <> "" -> allStars s = true -> endsWithChar s star = true.
Proof.
  induction s as [|c s IH]; [contradiction|]. intros _ H.
  cbn [allStars] in H. apply andb_prop in H as [Hc Hs].
  destruct s as [|d r]; [exact Hc|].
  change (endsWithChar (String c (String d r)) star)
    with (endsWithChar (String d r) star).
  now apply IH.
Qed.

Lemma classify_starRun (p : string) :
  isStarRun p = true -> classify p = Emphasized (slice_1_m1 p).
Proof.
  unfold isStarRun. intros [Ha Hl]%andb_prop.
  destruct p as [|c r]; [discriminate Hl|].
  assert (Hne : String c r <> "") by discriminate.
  unfold classify. rewrite (allStars_ends _ Hne Ha), Hl.
  cbn [allStars] in Ha. apply andb_prop in Ha as [Hc _].
  apply isStar_true in Hc as ->.
  rewrite startsWith_cons, startsWith_nil.
  destruct (ascii_dec "*" star) as [_|N]; [reflexivity|now destruct N].
Qed.

Lemma classify_piece (p : string) :
  classify p = Plain p \/ allStars p = true ->
  classify p = emphasizeStarRun (Plain p).
Proof.
  cbn [emphasizeStarRun]. destruct (isStarRun p) eqn:E.
  - intros _. now apply classify_starRun.
  - intros [H|H]; [exact H|]. unfold isStarRun in E. rewrite H in E.
    cbn [andb] in E. unfold classify. now rewrite E, andb_false_r.
Qed.

(** The formatter computes the rule that keeps empty plain segments, up
    to the runs of stars. *)
Lemma splitLoop_rule (fuel : nat) (cur s : string) :
  (String.length s <= fuel)%nat -> scanInv cur s ->
  map classify (splitLoop fuel cur s)
  = map emphasizeStarRun (ruleScan true fuel cur s).
Proof.
  revert cur s. induction fuel as [|fuel IH]; intros cur s Hlen J.
  - destruct s; [|cbn in Hlen; lia]. cbn [splitLoop ruleScan map].
    rewrite plainSegment_true. cbn [map]. f_equal.
    apply classify_piece. now apply (scanInv_piece _ "").
  - destruct s as [|c r].
    { cbn [splitLoop ruleScan map]. rewrite plainSegment_true. cbn [map].
      f_equal. apply classify_piece. now apply (scanInv_piece _ ""). }
    cbn [splitLoop]. cbn in Hlen.
    destruct (matchAt (String c r)) as [[m rest]|] eqn:E.
    + destruct (ruleScan_match true fuel cur c r m rest E) as (w & -> & ->).
      apply matchAt_sound in E as [_ Hl]. cbn in Hl.
      rewrite plainSegment_true. cbn [map app]. rewrite classify_delimited.
      f_equal; [apply classify_piece; now apply (scanInv_piece _ (String c r))|].
      f_equal. apply IH; [lia|]. left. split; [reflexivity|now left].
    + rewrite (ruleScan_nomatch true fuel cur c r E).
      apply IH; [lia|]. now apply scanInv_step.
Qed.

Lemma ruleScan_dropEmpty (fuel : nat) (cur s : string) :
  ruleScan false fuel cur s = dropEmptyPlain (ruleScan true fuel cur s).
Proof.
  revert cur s. induction fuel as [|fuel IH]; intros cur s.
  - destruct s; cbn [ruleScan]; apply plainSegment_false.
  - destruct s as [|c r]; [apply plainSegment_false|]. cbn [ruleScan].
    destruct (Ascii.eqb c "*"); [|apply IH].
    destruct (untilStar r) as [[|i inner] [|e rest]]; try apply IH.
    unfold dropEmptyPlain. rewrite List.filter_app. cbn [List.filter isEmptyPlain negb].
    f_equal; [apply plainSegment_false|]. f_equal. apply IH.
Qed.

Lemma dropEmptyPlain_emphasizeStarRun (l : list Segment) :
  dropEmptyPlain (map emphasizeStarRun l) = map emphasizeStarRun (dropEmptyPlain l).
Proof.
  induction l as [|seg l IH]; [reflexivity|].
  unfold dropEmptyPlain in *. cbn [map List.filter].
  assert (E : isEmptyPlain (emphasizeStarRun seg) = isEmptyPlain seg).
  { destruct seg as [w|[|c r]]; [reflexivity|reflexivity|].
    cbn [emphasizeStarRun]. now destruct (isStarRun (String c r)). }
  rewrite E. destruct (isEmptyPlain seg); cbn [negb map]; now rewrite IH.
Qed.

Lemma emphasizeStarRun_none (l : list Segment) :
  existsb plainStarRun l = false -> map emphasizeStarRun l = l.
Proof.
  induction l as [|seg l IH]; [reflexivity|]. cbn [existsb map].
  intros [H1 H2]%orb_false_elim. rewrite (IH H2). f_equal.
  destruct seg as [w|p]; [reflexivity|]. cbn in H1. cbn [emphasizeStarRun].
  now rewrite H1.
Qed.




(** X14: the result of the formatter is never empty and alternates: it has
    an odd number of segments, and every second one is an emphasized
    segment whose content is non-empty and free of stars. *)
Theorem formatEmphasis_alternates (text : string) :
  Alternates (formatEmphasis text).
Proof.
  unfold formatEmphasis. induction (split_pieces text) as [p _|p w rest _ Hne Hf _ IH].
  - constructor.
  - cbn [map]. rewrite classify_delimited. now constructor.
Qed.

(** X15: the content of an emphasized segment is either a non-empty text
    without star (a genuine pair) or made of stars only (a piece of two or
    more stars that the test on the pieces lets through); no other text is
    ever emphasized. *)
Theorem formatEmphasis_emphasized_content (text inner : string) :
  In (Emphasized inner) (formatEmphasis text) ->
  (inner <> "" /\ starFree inner = true) \/ allStars inner = true.
Proof.
  unfold formatEmphasis.
  induction (split_pieces text) as [p Hp|p w rest Hp Hne Hf _ IH]; cbn [map In].
  - intros [E|[]]. destruct Hp as [Hp|Hp]; [congruence|].
    unfold classify in E. destruct (_ && _ && _); [|discriminate].
    injection E as <-. right. now apply allStars_substring.
  - rewrite classify_delimited. intros [E|[E|Hin]].
    + destruct Hp as [Hp|Hp]; [congruence|].
      unfold classify in E. destruct (_ && _ && _); [|discriminate].
      injection E as <-. right. now apply allStars_substring.
    + injection E as <-. now left.
    + now apply IH.
Qed.

Lemma formatEmphasis_emphasized_content_witness :
  In (Emphasized "*") (formatEmphasis "a *b****")
  /\ (("*" <> "" /\ starFree "*" = true) \/ allStars "*" = true).
Proof.
  assert (H : In (Emphasized "*") (formatEmphasis "a *b****"))
    by (right; right; left; reflexivity).
  split; [exact H|].
  exact (formatEmphasis_emphasized_content "a *b****" "*" H).
Defined.

End EmphasisShape.

(** ** More on the link preview *)

Section PreviewMore.
Import VideoPreview.

Lemma complete_cases (url : string) (o : FetchOutcome) (i : Instance) :
  complete url o i = i
  \/ complete url o i
     = {| title := title i; thumb := thumb i; failed := true;
          cancelled := cancelled i |}
  \/ exists t th,
       complete url o i
       = {| title := Some (titleOr t url); thumb := thumbOrNull th;
            failed := failed i; cancelled := cancelled i |}.
Proof.
  unfold complete.
  destruct i as [ti thi fi [|]]; destruct o as [|[[|] [[|t th]|]]]; cbn;
    try (now left); try (right; left; reflexivity).
  right. right. now exists t, th.
Qed.

(** X16: a response with a success status whose body is the JSON value
    null is handled as a failure: reading its title throws inside the
    fulfilment handler, the catch handler sets the failed flag, and the
    fallback is shown. *)
Theorem null_body_is_failure (url : string) (i : Instance) :
  cancelled i = false ->
  let o := Responded {| ok := true; json := Some JsonNull |} in
  fst (lookup url o i) = Fulfilled tt
  /\ failed (complete url o i) = true
  /\ title (complete url o i) = title i
  /\ thumb (complete url o i) = thumb i
  /\ render url (complete url o i) = PlainLink url.
Proof.
  intros Hc o. subst o. destruct i as [ti thi fi c]. cbn in Hc. subst c.
  repeat split; reflexivity.
Qed.

Lemma null_body_is_failure_witness :
  cancelled mounted = false
  /\ render "https://youtu.be/a"
       (complete "https://youtu.be/a"
          (Responded {| ok := true; json := Some JsonNull |}) mounted)
     = PlainLink "https://youtu.be/a".
Proof.
  split; [reflexivity|].
  exact (proj2 (proj2 (proj2 (proj2
           (null_body_is_failure "https://youtu.be/a" mounted eq_refl))))).
Defined.

(** X17: no completion undoes what the component shows: a failed flag is
    never cleared, so a component that has failed keeps the fallback
    whatever a later lookup returns, and a title that has been set is never
    removed. *)
Theorem completion_never_resets (url : string) (o : FetchOutcome) (i : Instance) :
  (failed i = true ->
   failed (complete url o i) = true
   /\ render url (complete url o i) = PlainLink url
   /\ (forall hostnameOf,
         renderCompact hostnameOf url (complete url o i) = NoPreviewCard url))
  /\ (title i <> None -> title (complete url o i) <> None).
Proof.
  split.
  - intros Hf.
    assert (F : failed (complete url o i) = true).
    { destruct (complete_cases url o i) as [E|[E|(t & th & E)]]; rewrite E;
        [exact Hf|reflexivity|exact Hf]. }
    unfold render, renderCompact. rewrite F. now repeat split.
  - intros Ht.
    destruct (complete_cases url o i) as [E|[E|(t & th & E)]]; rewrite E;
      [exact Ht|exact Ht|discriminate].
Qed.

Lemma completion_never_resets_witness :
  let i := complete "u" NetworkError mounted in
  failed i = true
  /\ render "u" (complete "u" (success (Some "A title") None) i) = PlainLink "u".
Proof.
  intros i. split; [reflexivity|].
  exact (proj1 (proj2 (proj1 (completion_never_resets "u"
                                (success (Some "A title") None) i) eq_refl))).
Defined.

(** X18: a successful response that carries neither a title nor a
    thumbnail (both missing or empty) leaves the card of the first page
    exactly as it looks while the lookup is pending: the url as caption and
    the loading placeholder instead of an image. *)
Theorem empty_success_looks_pending (url : string) (t th : option string) :
  t = None \/ t = Some "" -> th = None \/ th = Some "" ->
  render url (complete url (success t th) mounted) = render url mounted
  /\ render url mounted = PreviewCard None url None
  /\ resultOf (complete url (success t th) mounted) = Resolved url None.
Proof. intros [-> | ->] [-> | ->]; repeat split; reflexivity. Qed.

Lemma empty_success_looks_pending_witness :
  (@None string = None \/ @None string = Some "")
  /\ render "u" (complete "u" (success None None) mounted) = render "u" mounted.
Proof.
  split; [now left|].
  exact (proj1 (empty_success_looks_pending "u" None None
                  (or_introl eq_refl) (or_introl eq_refl))).
Defined.

End PreviewMore.

(** ** The endpoint *)

Lemma containsChar_sapp (c : ascii) (a b : string) :
  containsChar c (a +:+ b) = containsChar c a || containsChar c b.
Proof.
  induction a as [|d a IH]; [reflexivity|].
  rewrite sapp_cons. cbn [containsChar]. now rewrite IH, orb_assoc.
Qed.

Lemma hexDigit_facts (n : nat) :
  (n < 16)%nat ->
  isUnreserved (hexDigit n) = true /\ hexValue (hexDigit n) = n.
Proof.
  intros Hn.
  do 16 (destruct n as [|n]; [split; reflexivity|]). lia.
Qed.

Lemma byte_digits (c : ascii) :
  (nat_of_ascii c / 16 < 16)%nat /\ (nat_of_ascii c mod 16 < 16)%nat.
Proof.
  pose proof (nat_ascii_bounded c) as B. split.
  - apply Nat.Div0.div_lt_upper_bound. lia.
  - apply Nat.mod_upper_bound. lia.
Qed.

Lemma hexDigit_inj (m n : nat) :
  (m < 16)%nat -> (n < 16)%nat -> hexDigit m = hexDigit n -> m = n.
Proof.
  intros Hm Hn E. apply (f_equal hexValue) in E.
  now rewrite (proj2 (hexDigit_facts m Hm)), (proj2 (hexDigit_facts n Hn)) in E.
Qed.

Lemma three_chars_sapp (a b e a' b' e' : ascii) (x y : string) :
  String a (String b (String e "")) +:+ x
  = String a' (String b' (String e' "")) +:+ y ->
  a = a' /\ b = b' /\ e = e' /\ x = y.
Proof. rewrite !sapp_cons, !sapp_nil_l. now intros [= -> -> -> ->]. Qed.

Lemma byte_of_digits (c d : ascii) :
  nat_of_ascii c / 16 = nat_of_ascii d / 16 ->
  nat_of_ascii c mod 16 = nat_of_ascii d mod 16 -> c = d.
Proof.
  intros Hh Hl.
  assert (E : nat_of_ascii c = nat_of_ascii d).
  { rewrite (Nat.div_mod_eq (nat_of_ascii c) 16),
            (Nat.div_mod_eq (nat_of_ascii d) 16). now rewrite Hh, Hl. }
  rewrite <- (ascii_nat_embedding c), <- (ascii_nat_embedding d). now rewrite E.
Qed.

Lemma encodeURIComponent_inj (u1 u2 : string) :
  encodeURIComponent u1 = encodeURIComponent u2 -> u1 = u2.
Proof.
  revert u2. induction u1 as [|c r IH]; intros [|d r2]; cbn [encodeURIComponent].
  - reflexivity.
  - destruct (isUnreserved d); discriminate.
  - destruct (isUnreserved c); discriminate.
  - destruct (isUnreserved c) eqn:Hc, (isUnreserved d) eqn:Hd.
    + rewrite !sapp_cons, !sapp_nil_l. intros [= -> E]. now rewrite (IH _ E).
    + unfold percentEncode. rewrite !sapp_cons, !sapp_nil_l.
      intros [= -> _]. discriminate Hc.
    + unfold percentEncode. rewrite !sapp_cons, !sapp_nil_l.
      intros [= <- _]. discriminate Hd.
    + unfold percentEncode. cbv zeta. intros E.
      apply three_chars_sapp in E as (_ & Hh & Hl & E).
      destruct (byte_digits c) as [C1 C2], (byte_digits d) as [D1 D2].
      apply (hexDigit_inj _ _ C1 D1) in Hh. apply (hexDigit_inj _ _ C2 D2) in Hl.
      rewrite (IH _ E). f_equal. now apply byte_of_digits.
Qed.

(** X19: the url is passed to the metadata service whole and as one query
    parameter: different urls give different endpoints, and the encoded url
    contains no character outside the unreserved ones and the percent sign,
    hence no [&], [=], [#], [?] or space that could end the parameter. *)
Theorem endpoint_encodes_url :
  (forall u1 u2 : string, endpoint u1 = endpoint u2 -> u1 = u2)
  /\ (forall (url : string) (c : ascii),
        isUnreserved c = false -> c <> "%"%char ->
        containsChar c (encodeURIComponent url) = false)
  /\ (forall url : string,
        startsWith (endpoint url) "https://noembed.com/embed?url=" = true).
Proof.
  repeat apply conj.
  - intros u1 u2 E. unfold endpoint in E.
    apply (inj (String.app _)) in E. now apply encodeURIComponent_inj.
  - intros url c Hc Hp. induction url as [|d r IH]; [reflexivity|].
    cbn [encodeURIComponent]. rewrite containsChar_sapp, IH, orb_false_r.
    destruct (isUnreserved d) eqn:Hd.
    + cbn [containsChar]. rewrite orb_false_r. apply Ascii.eqb_neq.
      intros ->. congruence.
    + unfold percentEncode. cbn [containsChar].
      destruct (byte_digits d) as [D1 D2].
      pose proof (proj1 (hexDigit_facts _ D1)) as U1.
      pose proof (proj1 (hexDigit_facts _ D2)) as U2.
      rewrite orb_false_r.
      replace (Ascii.eqb "%" c) with false
        by (symmetry; apply Ascii.eqb_neq; congruence).
      replace (Ascii.eqb (hexDigit (nat_of_ascii d / 16)) c) with false
        by (symmetry; apply Ascii.eqb_neq; intros E; rewrite E in U1; congruence).
      replace (Ascii.eqb (hexDigit (nat_of_ascii d mod 16)) c) with false
        by (symmetry; apply Ascii.eqb_neq; intros E; rewrite E in U2; congruence).
      reflexivity.
  - intros url. apply startsWith_sapp.
Qed.

Lemma endpoint_encodes_url_witness :
  isUnreserved "&" = false /\ "&"%char <> "%"%char
  /\ containsChar "&"
       (encodeURIComponent "https://www.youtube.com/watch?v=a&t=1") = false.
Proof.
  split; [reflexivity|]. split; [discriminate|].
  apply (proj1 (proj2 endpoint_encodes_url)); [reflexivity|discriminate].
Defined.

(** ** Empty states in the two later pages *)

Lemma renderSubtypes_rows (label : string -> Label) (item : string -> ExampleView)
  (st : ExpansionState) (tIdx : nat) (subs : list Subtype) :
  (renderSubtypes label item st tIdx subs = NoSubtypes <-> subs = [])
  /\ (forall j sub, subs !! j = Some sub ->
        subtypeRows (renderSubtypes label item st tIdx subs) !! j
        = Some (renderSubtype label item st tIdx j sub)).
Proof.
  split.
  - destruct subs; [now split|]. split; discriminate.
  - intros j sub Hj.
    replace (subtypeRows (renderSubtypes label item st tIdx subs))
      with (imap (renderSubtype label item st tIdx) subs) by now destruct subs.
    now rewrite list_lookup_imap, Hj.
Qed.

Lemma renderSubtype_body (label : string -> Label) (item : string -> ExampleView)
  (st : ExpansionState) (tIdx sIdx : nat) (sub : Subtype) :
  (sv_body (renderSubtype label item st tIdx sIdx sub) = Some NoExamples
   <-> subOpen st tIdx sIdx = true /\ default [] (examples sub) = [])
  /\ (sv_body (renderSubtype label item st tIdx sIdx sub) = None
      <-> subOpen st tIdx sIdx = false).
Proof.
  unfold renderSubtype. cbn [sv_body].
  destruct (subOpen st tIdx sIdx).
  - split; [|split; discriminate].
    destruct (examples sub) as [[|u us]|]; cbn; split; try (now intros);
      try (intros [_ [=]]); try discriminate.
  - split; split; try discriminate; try reflexivity. now intros [[=] _].
Qed.

Lemma later_page_row (label : string -> Label)
  (f : nat -> Topic -> Result TopicView) (p : Page) (i : nat) (topic : Topic) :
  (forall tIdx t,
      f tIdx t
      = Ok {| tv_label := label (topic_type t);
              tv_open := isOpen (expansion p) tIdx;
              tv_body :=
                if isOpen (expansion p) tIdx
                then Some (renderSubtypes label Preview (expansion p) tIdx
                             (default [] (subtypes t)))
                else None |}) ->
  topics p !! i = Some topic ->
  exists views v,
    sequenceR (imap f (topics p)) = Ok views /\ views !! i = Some v
    /\ tv_open v = isOpen (expansion p) i
    /\ (tv_body v = None <-> isOpen (expansion p) i = false)
    /\ (tv_body v = Some NoSubtypes
        <-> isOpen (expansion p) i = true /\ default [] (subtypes topic) = [])
    /\ (forall j sub,
          isOpen (expansion p) i = true ->
          default [] (subtypes topic) !! j = Some sub ->
          exists sv, subtypesShown v !! j = Some sv
            /\ (sv_body sv = Some NoExamples
                <-> subOpen (expansion p) i j = true
                    /\ default [] (examples sub) = [])
            /\ (sv_body sv = None <-> subOpen (expansion p) i j = false)).
Proof.
  intros Hf Hl. eexists. eexists.
  split; [apply (sequenceR_imap_Ok f _ (topics p) Hf)|].
  split; [now rewrite list_lookup_imap, Hl|].
  cbn [tv_open tv_body]. split; [reflexivity|].
  destruct (isOpen (expansion p) i) eqn:Ho.
  - split; [split; discriminate|]. split.
    + split.
      * intros [= E]. split; [reflexivity|]. now apply renderSubtypes_rows in E.
      * intros [_ E]. f_equal. now apply renderSubtypes_rows.
    + intros j sub _ Hj. eexists. unfold subtypesShown. cbn [tv_body].
      split; [apply (proj2 (renderSubtypes_rows _ _ _ _ _) j sub Hj)|].
      apply renderSubtype_body.
  - split; [now split|]. split.
    + split; [discriminate|]. now intros [[=] _].
    + intros j sub [=].
Qed.

(** X20: in the two later pages every topic of the document has its row,
    whatever fields are missing.  A collapsed row has no body; an expanded
    topic shows "No subtypes" exactly when its [subtypes] field is missing
    or empty, and otherwise one row per subtype; an expanded subtype shows
    "No examples" exactly when its [examples] field is missing or empty. *)
Theorem later_pages_empty_states (p : Page) (i : nat) (topic : Topic) :
  topics p !! i = Some topic ->
  (exists views v,
      PreviewPage.render p = Ok views /\ views !! i = Some v
      /\ tv_open v = isOpen (expansion p) i
      /\ (tv_body v = None <-> isOpen (expansion p) i = false)
      /\ (tv_body v = Some NoSubtypes
          <-> isOpen (expansion p) i = true /\ default [] (subtypes topic) = [])
      /\ (forall j sub,
            isOpen (expansion p) i = true ->
            default [] (subtypes topic) !! j = Some sub ->
            exists sv, subtypesShown v !! j = Some sv
              /\ (sv_body sv = Some NoExamples
                  <-> subOpen (expansion p) i j = true
                      /\ default [] (examples sub) = [])
              /\ (sv_body sv = None <-> subOpen (expansion p) i j = false)))
  /\ (exists views v,
        TitlesPage.render p = Ok views /\ views !! i = Some v
        /\ tv_open v = isOpen (expansion p) i
        /\ (tv_body v = None <-> isOpen (expansion p) i = false)
        /\ (tv_body v = Some NoSubtypes
            <-> isOpen (expansion p) i = true /\ default [] (subtypes topic) = [])
        /\ (forall j sub,
              isOpen (expansion p) i = true ->
              default [] (subtypes topic) !! j = Some sub ->
              exists sv, subtypesShown v !! j = Some sv
                /\ (sv_body sv = Some NoExamples
                    <-> subOpen (expansion p) i j = true
                        /\ default [] (examples sub) = [])
                /\ (sv_body sv = None <-> subOpen (expansion p) i j = false))).
Proof.
  intros Hl. split.
  - now apply (later_page_row Text (PreviewPage.renderTopic (expansion p))
                 p i topic).
  - now apply (later_page_row TitlesPage.label
                 (TitlesPage.renderTopic (expansion p)) p i topic).
Qed.

Lemma later_pages_empty_states_witness :
  let p := click (TitlesPage.mount sampleDb) (ToggleTopic 2) in
  topics p !! 2%nat = Some {| topic_type := "Curiosity *gap*"; subtypes := None |}
  /\ exists views v,
       TitlesPage.render p = Ok views /\ views !! 2%nat = Some v
       /\ tv_body v = Some NoSubtypes.
Proof.
  intros p.
  assert (H : topics p !! 2%nat
              = Some {| topic_type := "Curiosity *gap*"; subtypes := None |})
    by reflexivity.
  split; [exact H|].
  destruct (proj2 (later_pages_empty_states p 2 _ H))
    as (views & v & R & Hv & _ & _ & E & _).
  exists views, v. split; [exact R|]. split; [exact Hv|].
  apply E. split; reflexivity.
Defined.

Lemma render_shows_visible_examples_witness :
  let p := click (click (TopicsPage.mount sampleDb) (ToggleTopic 1))
                 (ToggleSubtype 1 1) in
  exists views,
    TopicsPage.render p = Ok views
    /\ shownExamples views = [Link "https://youtu.be/a"].
Proof.
  intros p. eexists. split; [reflexivity|].
  rewrite (proj2 (proj2 (render_shows_visible_examples p)) _ eq_refl).
  reflexivity.
Defined.
